(** * onoff.py: the [OnOffMixin] event registry

    A shallow embedding of [OnOffMixin] ([on], [off], [once], [trigger]) from
    [src/onoff.py], and the properties of its registration, removal and
    dispatch.

    Python objects that the code mutates or shares are kept in an explicit
    store:
    - every [callback_obj] dict ([{'callback': .., 'times': .., 'calls': ..}])
      is a cell of [objs], named by its address;
    - every Python list held in [self._on_off_events] is a cell of [lsts], a
      list of [callback_obj] addresses;
    - [self._on_off_events] maps an event name to the address of its list.

    This keeps what the code relies on: [off] builds a new list and rebinds
    the dict entry (the list a running [for] loop iterates on is left as it
    is), while [callback_obj['calls'] += 1] updates a dict that both lists
    share.

    Callbacks are code outside the class.  A callback is named by its identity
    (what [!=] compares in [off]); calling it is recorded in [journal], and
    whether the call raises is given by [raises], a function of the calls
    made so far.

    A callback can also call [on], [off], [once] and [trigger] on the
    registry it is registered with, from inside [trigger].  [call], [fire],
    [dispatch] and [trigger] are the code run with callbacks that do not;
    [rcall], [rdispatch] and [rtrigger] are the code run with callbacks that
    do, as [script] says, and [rtrigger_detached] shows that the two agree
    when the script is empty. *)

From Stdlib Require Import ZArith Lia.
From stdpp Require Import base option list gmap strings.

(** ** Values *)

Inductive PyVal :=
  | PyNone
  | PyInt (z : Z)
  | PyStr (s : string).

(** The positional and keyword arguments of [trigger], passed through to the
    callbacks unchanged. *)
Record Args := mkArgs {
  positional : list PyVal;
  keyword : list (string * PyVal)
}.

Definition Callback := nat.

Definition Call : Type := Callback * Args.

(** [events: Union[str, List[str]]] *)
Inductive Events :=
  | Str (event : string)
  | Strs (events : list string).

(** [if isinstance(events, str): events = [events]] *)
Definition as_list (events : Events) : list string :=
  match events with
  | Str event => [event]
  | Strs events => events
  end.

(** ** The store *)

Record CallbackObj := mkObj {
  callback : Callback;
  times : option Z;
  calls : Z
}.

Record World := mkWorld {
  objs : list CallbackObj;
  lsts : list (list nat);
  _on_off_events : gmap string nat;
  journal : list Call
}.

(** [__init__]: [self._on_off_events = {}] *)
Definition init : World :=
  {| objs := []; lsts := []; _on_off_events := ∅; journal := [] |}.

Definition with_objs (w : World) (os : list CallbackObj) : World :=
  {| objs := os; lsts := lsts w;
     _on_off_events := _on_off_events w; journal := journal w |}.

Definition with_lsts (w : World) (ls : list (list nat)) : World :=
  {| objs := objs w; lsts := ls;
     _on_off_events := _on_off_events w; journal := journal w |}.

Definition with_events (w : World) (d : gmap string nat) : World :=
  {| objs := objs w; lsts := lsts w;
     _on_off_events := d; journal := journal w |}.

Definition with_journal (w : World) (j : list Call) : World :=
  {| objs := objs w; lsts := lsts w;
     _on_off_events := _on_off_events w; journal := j |}.

(** ** Computations: state and exceptions

    [KeyError] and [CallbackError] are what Python code can observe.
    [Dangling] (an address with no cell) and [Diverged] (a loop that ran out
    of fuel) belong to the model; the theorems show they do not happen. *)

Inductive Exception :=
  | KeyError (key : string)
  | CallbackError (cb : Callback)
  | Dangling
  | Diverged.

Inductive Outcome (A : Type) :=
  | Return (a : A)
  | Raise (e : Exception).
Arguments Return {A} a.
Arguments Raise {A} e.

Definition Py (A : Type) : Type := World -> Outcome A * World.

Definition ret {A} (a : A) : Py A := fun w => (Return a, w).

Definition raise {A} (e : Exception) : Py A := fun w => (Raise e, w).

Definition bind {A B} (c : Py A) (k : A -> Py B) : Py B :=
  fun w =>
    match c w with
    | (Return a, w') => k a w'
    | (Raise e, w') => (Raise e, w')
    end.

Notation "'let*' x ':=' c 'in' k" := (bind c (fun x => k))
  (at level 10, x name, c at level 100, k at level 200).

(** [for x in xs: body(x)] over a Python value that nothing mutates (the
    normalised [events] argument). *)
Fixpoint for_each {A} (xs : list A) (body : A -> Py unit) : Py unit :=
  match xs with
  | [] => ret tt
  | x :: xs' => let* _ := body x in for_each xs' body
  end.

(** *** Store primitives *)

Definition get_obj (a : nat) : Py CallbackObj :=
  fun w =>
    match objs w !! a with
    | Some o => (Return o, w)
    | None => (Raise Dangling, w)
    end.

Definition set_obj (a : nat) (o : CallbackObj) : Py unit :=
  fun w =>
    match objs w !! a with
    | Some _ => (Return tt, with_objs w (<[a := o]> (objs w)))
    | None => (Raise Dangling, w)
    end.

Definition new_obj (o : CallbackObj) : Py nat :=
  fun w => (Return (length (objs w)), with_objs w (objs w ++ [o])).

Definition get_list (l : nat) : Py (list nat) :=
  fun w =>
    match lsts w !! l with
    | Some xs => (Return xs, w)
    | None => (Raise Dangling, w)
    end.

Definition new_list (xs : list nat) : Py nat :=
  fun w => (Return (length (lsts w)), with_lsts w (lsts w ++ [xs])).

(** [lst.append(x)]: in place. *)
Definition list_append (l : nat) (x : nat) : Py unit :=
  fun w =>
    match lsts w !! l with
    | Some xs => (Return tt, with_lsts w (<[l := xs ++ [x]]> (lsts w)))
    | None => (Raise Dangling, w)
    end.

(** [key in d] *)
Definition dict_contains (key : string) : Py bool :=
  fun w => (Return (bool_decide (is_Some (_on_off_events w !! key))), w).

(** [d[key]] *)
Definition dict_getitem (key : string) : Py nat :=
  fun w =>
    match _on_off_events w !! key with
    | Some l => (Return l, w)
    | None => (Raise (KeyError key), w)
    end.

(** [d[key] = l] *)
Definition dict_setitem (key : string) (l : nat) : Py unit :=
  fun w => (Return tt, with_events w (<[key := l]> (_on_off_events w))).

(** [d.setdefault(key, l)] *)
Definition dict_setdefault (key : string) (l : nat) : Py nat :=
  fun w =>
    match _on_off_events w !! key with
    | Some l' => (Return l', w)
    | None => (Return l, with_events w (<[key := l]> (_on_off_events w)))
    end.

(** [for x in lst: body(x)] over a list object of the store, as Python's list
    iterator runs it: the iterator keeps the list and an index, and every
    step reads the list afresh.  The loop ends when the index is past the
    end of the list as it is then. *)
Fixpoint for_in (fuel : nat) (l : nat) (i : nat) (body : nat -> Py unit)
  : Py unit :=
  fun w =>
    match lsts w !! l with
    | None => (Raise Dangling, w)
    | Some xs =>
        match xs !! i with
        | None => (Return tt, w)
        | Some x =>
            match fuel with
            | O => (Raise Diverged, w)
            | S fuel' =>
                (let* _ := body x in for_in fuel' l (S i) body) w
            end
        end
    end.

Definition for_list (l : nat) (body : nat -> Py unit) : Py unit :=
  let* xs := get_list l in
  for_in (length xs) l 0 body.

(** ** [OnOffMixin.on] *)

Definition on (events : Events) (callback : Callback) (times : option Z)
  : Py unit :=
  let callback_obj := {| callback := callback; times := times; calls := 0 |} in
  for_each (as_list events) (fun event =>
    let* fresh := new_list [] in
    let* l := dict_setdefault event fresh in
    let* copy := new_obj callback_obj in
    list_append l copy).

(** ** [OnOffMixin.off] *)

(** [[callback_obj for callback_obj in xs
      if callback_obj['callback'] != callback]] *)
Fixpoint keep_others (callback' : Callback) (xs : list nat) : Py (list nat) :=
  match xs with
  | [] => ret []
  | callback_obj :: xs' =>
      let* o := get_obj callback_obj in
      let* ys := keep_others callback' xs' in
      ret (if decide (callback o ≠ callback') then callback_obj :: ys else ys)
  end.

Definition off (events : Events) (callback : Callback) : Py unit :=
  for_each (as_list events) (fun event =>
    let* l := dict_getitem event in
    let* xs := get_list l in
    let* ys := keep_others callback xs in
    let* l' := new_list ys in
    dict_setitem event l').

(** ** [OnOffMixin.once] *)

Definition once (events : Events) (callback : Callback) : Py unit :=
  on events callback (Some 1%Z).

(** ** [OnOffMixin.trigger] *)

(** [callback_obj['calls'] == callback_obj['times']]: an [int] never equals
    [None]. *)
Definition calls_eq_times (o : CallbackObj) : bool :=
  match times o with
  | Some t => (calls o =? t)%Z
  | None => false
  end.

Section Trigger.

(** Whether calling a callback with given arguments raises, after the calls
    already made. *)
Variable raises : list Call -> Callback -> Args -> bool.

(** [callback_obj['callback']] applied to the arguments of [trigger], for a
    callback that makes no call on the registry while it runs: the call is
    recorded, and returns or raises.  ([rcall], further down, is the call of
    a callback that does call the registry.) *)
Definition call (cb : Callback) (args : Args) : Py unit :=
  fun w =>
    let w' := with_journal w (journal w ++ [(cb, args)]) in
    if raises (journal w) cb args
    then (Raise (CallbackError cb), w')
    else (Return tt, w').

(** The body of the inner loop. *)
Definition fire (event : string) (args : Args) (callback_obj : nat)
  : Py unit :=
  let* o := get_obj callback_obj in
  let* _ := call (callback o) args in
  let* o := get_obj callback_obj in
  let* _ := set_obj callback_obj
              {| callback := callback o; times := times o;
                 calls := (calls o + 1)%Z |} in
  let* o := get_obj callback_obj in
  if calls_eq_times o then off (Str event) (callback o) else ret tt.

(** One dispatch pass: [for callback_obj in self._on_off_events[event]] *)
Definition dispatch (event : string) (args : Args) : Py unit :=
  let* l := dict_getitem event in
  for_list l (fire event args).

(** The body of the outer loop: [if event in self._on_off_events: ...] *)
Definition visit (args : Args) (event : string) : Py unit :=
  let* present := dict_contains event in
  if present then dispatch event args else ret tt.

(** [logging.debug(...)], the first statement of [trigger], leaves the
    registry alone and is not modelled. *)
Definition trigger (events : Events) (args : Args) : Py unit :=
  for_each (as_list events) (visit args).

(** Every call of [js], made in this order after the calls of [j],
    returns. *)
Fixpoint all_return (j : list Call) (js : list Call) : Prop :=
  match js with
  | [] => True
  | c :: js' => raises j c.1 c.2 = false ∧ all_return (j ++ [c]) js'
  end.

End Trigger.

(** Callbacks that never raise. *)
Definition quiet : list Call -> Callback -> Args -> bool := fun _ _ _ => false.

(** The callback [8] raises, the others return. *)
Definition grumpy : list Call -> Callback -> Args -> bool :=
  fun _ cb _ => Nat.eqb cb 8.

Definition no_args : Args := mkArgs [] [].

Definition run {A} (c : Py A) (w : World) : World := snd (c w).

(** Some registries, for the examples. *)

(** [on("ping", 7)] *)
Definition lone_ping : World := run (on (Str "ping") 7 None) init.

(** [on("e", 7, 1); on("e", 8); on("e", 7)] *)
Definition mixed_e : World :=
  run (on (Str "e") 7 None)
    (run (on (Str "e") 8 None) (run (on (Str "e") 7 (Some 1%Z)) init)).

(** [on("e", 7); on("e", 8); on("e", 9); on("f", 9)] *)
Definition crowd : World :=
  run (on (Str "f") 9 None)
    (run (on (Str "e") 9 None)
       (run (on (Str "e") 8 None) (run (on (Str "e") 7 None) init))).

(** ** Views of the store *)

(** The sequence bound to an event name: the addresses in the list that
    [self._on_off_events[event]] holds. *)
Definition listeners (w : World) (event : string) : option (list nat) :=
  match _on_off_events w !! event with
  | Some l => lsts w !! l
  | None => None
  end.

(** [callback_obj['callback']] of the object at an address. *)
Definition cb_of (w : World) (a : nat) : option Callback :=
  callback <$> objs w !! a.

(** What [off] keeps of a sequence. *)
Definition others (w : World) (cb : Callback) (xs : list nat) : list nat :=
  filter (λ a, cb_of w a ≠ Some cb) xs.

(** The store after [self._on_off_events[event] = ys] for a new list [ys]. *)
Definition rebind (w : World) (event : string) (ys : list nat) : World :=
  with_events (with_lsts w (lsts w ++ [ys]))
    (<[event := length (lsts w)]> (_on_off_events w)).

(** The shape of every store that [__init__], [on], [off], [once] and
    [trigger] build: no dangling address, one list object per event name,
    and every [callback_obj] in one place of one sequence ([on] stores a
    fresh copy for each event). *)
Record wf (w : World) : Prop := mkWf {
  wf_bound : ∀ e l, _on_off_events w !! e = Some l → is_Some (lsts w !! l);
  wf_cells : ∀ l xs a, lsts w !! l = Some xs → a ∈ xs → is_Some (objs w !! a);
  wf_inj : ∀ e1 e2 l,
    _on_off_events w !! e1 = Some l → _on_off_events w !! e2 = Some l → e1 = e2;
  wf_nodup : ∀ e xs, listeners w e = Some xs → NoDup xs;
  wf_own : ∀ e1 e2 xs1 xs2 a,
    listeners w e1 = Some xs1 → listeners w e2 = Some xs2 →
    a ∈ xs1 → a ∈ xs2 → e1 = e2;
  wf_calls : ∀ a o, objs w !! a = Some o → (0 ≤ calls o)%Z
}.

(** [callback_obj['calls'] += 1] *)
Definition bump (o : CallbackObj) : CallbackObj :=
  {| callback := callback o; times := times o; calls := calls o + 1 |}.

Definition bumped (w : World) (a : nat) (o : CallbackObj) : World :=
  with_objs w (<[a := bump o]> (objs w)).

(** The store after one more call of a callback. *)
Definition called (w : World) (c : Call) : World :=
  with_journal w (journal w ++ [c]).

(** The callbacks of a sequence, in order. *)
Definition callbacks (w : World) (xs : list nat) : list Callback :=
  omap (cb_of w) xs.

Definition with_args (args : Args) (cs : list Callback) : list Call :=
  map (λ c, (c, args)) cs.

(** The callbacks of the records of [xs] whose count, once incremented,
    equals their [times]. *)
Definition exhausted (w : World) (xs : list nat) : list Callback :=
  omap (λ a, match objs w !! a with
             | Some o => if calls_eq_times (bump o) then Some (callback o)
                         else None
             | None => None
             end) xs.

(** What is left of the sequence [rs] once the records of [done] have been
    called: the records whose callback is not the callback of an exhausted
    record. *)
Definition survivors (w : World) (done rs : list nat) : list nat :=
  filter (λ a, Forall (λ c, cb_of w a ≠ Some c) (exhausted w done)) rs.

(** The sum of all [calls] counters. *)
Definition total_calls (w : World) : Z :=
  foldr (λ o s, (calls o + s)%Z) 0%Z (objs w).

(** The state of a dispatch pass on [e], started in [w0] on the sequence
    [rs], after the first [k] records of [rs] have been called and have
    returned. *)
Record mid_pass (w0 : World) (e : string) (args : Args) (rs : list nat)
    (k : nat) (w : World) : Prop := mkMidPass {
  mp_wf : wf w;
  mp_objs : ∀ a,
    objs w !! a
    = (if decide (a ∈ take k rs) then bump else id) <$> objs w0 !! a;
  mp_total : total_calls w = (total_calls w0 + Z.of_nat k)%Z;
  mp_journal :
    journal w = journal w0 ++ with_args args (callbacks w0 (take k rs));
  mp_here : listeners w e = Some (survivors w0 (take k rs) rs);
  mp_else : ∀ e', e' ≠ e → listeners w e' = listeners w0 e';
  mp_keys : ∀ e',
    is_Some (_on_off_events w !! e') ↔ is_Some (_on_off_events w0 !! e')
}.

(** Postconditions: [P] on normal return, [Q] on an exception. *)
Definition satisfies {A} (r : Outcome A * World)
    (P : A → World → Prop) (Q : Exception → World → Prop) : Prop :=
  match r with
  | (Return a, w) => P a w
  | (Raise e, w) => Q e w
  end.

(** The invariant of the inner loop of a pass on the list object [l0]: the
    list that the loop iterates on is left as it was, and the calls made so
    far have all returned. *)
Definition looping (raises : list Call → Callback → Args → bool)
    (w0 : World) (e : string) (args : Args) (l0 : nat) (rs : list nat)
    (k : nat) (w : World) : Prop :=
  mid_pass w0 e args rs k w
  ∧ lsts w !! l0 = Some rs
  ∧ all_return raises (journal w0) (with_args args (callbacks w0 (take k rs))).

(** Every record is still there, with its callback and its [times], and its
    count has not gone down. *)
Definition kept_counts (w w' : World) : Prop :=
  ∀ a o, objs w !! a = Some o →
    ∃ o', objs w' !! a = Some o' ∧ callback o' = callback o
      ∧ times o' = times o ∧ (calls o ≤ calls o')%Z.

(** From [w] to [w']: some calls were made, with the arguments [args]; all
    returned; the counters went up by one for each of them. *)
Definition completes (raises : list Call → Callback → Args → bool)
    (args : Args) (w w' : World) : Prop :=
  ∃ js, journal w' = journal w ++ js
    ∧ Forall (λ c, c.2 = args) js
    ∧ all_return raises (journal w) js
    ∧ total_calls w' = (total_calls w + Z.of_nat (length js))%Z
    ∧ kept_counts w w'.

(** From [w] to [w'] with the exception [x]: some calls were made and
    returned, then the call of [c] raised, and [w'] is the store as that call
    found it (but for the record of the call itself). *)
Definition aborts (raises : list Call → Callback → Args → bool)
    (args : Args) (w : World) (x : Exception) (w' : World) : Prop :=
  ∃ c w1, x = CallbackError c ∧ completes raises args w w1
    ∧ raises (journal w1) c args = true ∧ w' = called w1 (c, args).

(** The counts stay within the limits: no record with a positive [times] has
    more [calls] than that, and a record that is in a sequence has fewer. *)
Definition bounded (w : World) : Prop :=
  (∀ a o t, objs w !! a = Some o → times o = Some t → (0 < t)%Z →
     (calls o ≤ t)%Z)
  ∧ (∀ e xs a o t, listeners w e = Some xs → a ∈ xs →
       objs w !! a = Some o → times o = Some t → (0 < t)%Z →
       (calls o < t)%Z).

(** The operations of the class. *)
Inductive Op :=
  | On (events : Events) (cb : Callback) (times : option Z)
  | Off (events : Events) (cb : Callback)
  | Once (events : Events) (cb : Callback)
  | Trigger (events : Events) (args : Args).

Definition perform (raises : list Call → Callback → Args → bool) (op : Op)
  : Py unit :=
  match op with
  | On events cb times => on events cb times
  | Off events cb => off events cb
  | Once events cb => once events cb
  | Trigger events args => trigger raises events args
  end.

(** The stores that a registry goes through: from [__init__], by any
    operations, whether they return or raise. *)
Inductive reachable (raises : list Call → Callback → Args → bool)
  : World → Prop :=
  | reach_init : reachable raises init
  | reach_step w op :
      reachable raises w → reachable raises (run (perform raises op) w).

(** A record whose count cannot reach its [times] any more: it has none, or
    one that is not above its count. *)
Definition dormant (o : CallbackObj) : Prop :=
  match times o with
  | None => True
  | Some t => (t ≤ calls o)%Z
  end.

(** No record of the callback [c] in the sequence of [e] can reach its
    limit. *)
Definition settled (w : World) (e : string) (c : Callback) : Prop :=
  ∀ xs a o, listeners w e = Some xs → a ∈ xs → objs w !! a = Some o →
    callback o = c → dormant o.

(** The record at [a] is in the sequence of [e], for the callback [c] and
    with [times = t]. *)
Definition registered (w : World) (e : string) (a : nat) (c : Callback)
    (t : option Z) : Prop :=
  ∃ xs o, listeners w e = Some xs ∧ a ∈ xs ∧ objs w !! a = Some o
    ∧ callback o = c ∧ times o = t.

(** A limit that is not positive, dropped. *)
Definition unlimit_times (t : option Z) : option Z :=
  match t with
  | Some z => if (z <=? 0)%Z then None else Some z
  | None => None
  end.

Definition unlimit (o : CallbackObj) : CallbackObj :=
  {| callback := callback o; times := unlimit_times (times o);
     calls := calls o |}.

(** The store in which every record with a non-positive [times] has no
    [times]. *)
Definition relax (w : World) : World := with_objs w (unlimit <$> objs w).

Definition relax_op (op : Op) : Op :=
  match op with
  | On events cb t => On events cb (unlimit_times t)
  | Off events cb => Off events cb
  | Once events cb => Once events cb
  | Trigger events args => Trigger events args
  end.

Definition nonneg (w : World) : Prop :=
  ∀ a o, objs w !! a = Some o → (0 ≤ calls o)%Z.

(** [c'] does on the relaxed store what [c] does on the store: the same
    result, and the relaxed store of [c]. *)
Definition commutes {A} (c c' : Py A) : Prop :=
  ∀ w, nonneg w → c' (relax w) = ((c w).1, relax (c w).2) ∧ nonneg (c w).2.

(** The addresses of the copies that [on] stores for the name [e] when it
    goes through the names [es], the first copy being allocated at
    [base]. *)
Fixpoint copies_for (e : string) (es : list string) (base : nat) : list nat :=
  match es with
  | [] => []
  | x :: es' =>
      (if decide (x = e) then [base] else []) ++ copies_for e es' (S base)
  end.

(** [c] run [n] times in a row, as long as it returns. *)
Fixpoint repeatedly (n : nat) (c : Py unit) : Py unit :=
  match n with
  | O => ret tt
  | S n' => let* _ := c in repeatedly n' c
  end.

(** The number of calls of [js], made in this order after the calls of [j],
    that return. *)
Fixpoint tally (raises : list Call → Callback → Args → bool)
    (j : list Call) (js : list Call) : nat :=
  match js with
  | [] => 0
  | c :: js' =>
      (if raises j c.1 c.2 then 0 else 1) + tally raises (j ++ [c]) js'
  end.


(** ** Callbacks that call the registry

    A callback is code of the caller, and it can hold the registry it is
    registered with: while it runs, inside the inner loop of [trigger], it
    can call [on], [off], [once] and [trigger] on that registry.  [trigger]
    has no guard against this.  [script] gives the calls that a callback
    makes on the registry while it runs (after the calls already made, so a
    callback can do this on its first call only); an exception of one of
    them goes through the callback; afterwards the callback returns, or
    raises as [raises] says.

    A nested [trigger] runs callbacks again, and [on] lengthens the list
    that a loop iterates on, so both the nesting and the loops are bounded
    by [fuel]; running out of it is [Diverged]. *)

Section Reentrant.

Variable raises : list Call -> Callback -> Args -> bool.
Variable script : list Call -> Callback -> Args -> list Op.

Section Body.

(** How a callback is called. *)
Variable calling : Callback -> Args -> Py unit.
Variable fuel : nat.

(** The body of the inner loop. *)
Definition fire_with (event : string) (args : Args) (callback_obj : nat)
  : Py unit :=
  let* o := get_obj callback_obj in
  let* _ := calling (callback o) args in
  let* o := get_obj callback_obj in
  let* _ := set_obj callback_obj
              {| callback := callback o; times := times o;
                 calls := (calls o + 1)%Z |} in
  let* o := get_obj callback_obj in
  if calls_eq_times o then off (Str event) (callback o) else ret tt.

(** [for callback_obj in self._on_off_events[event]]: the list object is
    looked up once, and the loop goes on as long as the list has an item at
    the index, whatever was appended to it in the meantime. *)
Definition dispatch_with (event : string) (args : Args) : Py unit :=
  let* l := dict_getitem event in
  for_in fuel l 0 (fire_with event args).

Definition visit_with (args : Args) (event : string) : Py unit :=
  let* present := dict_contains event in
  if present then dispatch_with event args else ret tt.

Definition trigger_with (events : Events) (args : Args) : Py unit :=
  for_each (as_list events) (visit_with args).

Definition perform_with (op : Op) : Py unit :=
  match op with
  | On events cb times => on events cb times
  | Off events cb => off events cb
  | Once events cb => once events cb
  | Trigger events args => trigger_with events args
  end.

End Body.

(** [callback_obj['callback']] applied to the arguments of [trigger], for a
    callback that calls the registry. *)
Fixpoint rcall (fuel : nat) (cb : Callback) (args : Args) : Py unit :=
  match fuel with
  | O => raise Diverged
  | S fuel' =>
      fun w =>
        match for_each (script (journal w) cb args)
                (perform_with (rcall fuel') fuel') (called w (cb, args)) with
        | (Return _, w') =>
            if raises (journal w) cb args
            then (Raise (CallbackError cb), w')
            else (Return tt, w')
        | (Raise x, w') => (Raise x, w')
        end
  end.

Definition rdispatch (fuel : nat) (event : string) (args : Args) : Py unit :=
  dispatch_with (rcall fuel) fuel event args.

(** [OnOffMixin.trigger], with callbacks that call the registry. *)
Definition rtrigger (fuel : nat) (events : Events) (args : Args) : Py unit :=
  trigger_with (rcall fuel) fuel events args.

End Reentrant.

(** Callbacks that never call the registry. *)
Definition detached (script : list Call → Callback → Args → list Op) : Prop :=
  ∀ j cb args, script j cb args = [].

Definition aloof : list Call → Callback → Args → list Op := fun _ _ _ => [].


(** On its first call only, the callback [7] triggers ["e"] again:
    [self.trigger("e")] in the body of [f]. *)
Definition echoes : list Call → Callback → Args → list Op :=
  fun j cb args =>
    if Nat.eqb cb 7 && negb (existsb (λ c : Call, Nat.eqb c.1 7) j)
    then [Trigger (Str "e") args] else [].

(** [once("e", 7)] *)
Definition lone_once : World := run (once (Str "e") 7) init.


(** * Proofs *)

(** ** The monad and the loops *)

Lemma satisfies_bind {A B} (c : Py A) (k : A → Py B) w P Q :
  satisfies (c w) (λ a w', satisfies (k a w') P Q) Q →
  satisfies (bind c k w) P Q.
Proof. unfold bind, satisfies. destruct (c w) as [[a|e] w']; auto. Qed.

Lemma satisfies_weaken {A} (r : Outcome A * World) (P P' : A → World → Prop)
    (Q Q' : Exception → World → Prop) :
  satisfies r P Q → (∀ a w, P a w → P' a w) → (∀ e w, Q e w → Q' e w) →
  satisfies r P' Q'.
Proof. destruct r as [[a|e] w]; simpl; auto. Qed.

Lemma run_satisfies {A} (c : Py A) w (P : World → Prop) :
  satisfies (c w) (λ _, P) (λ _, P) ↔ P (run c w).
Proof. unfold run, satisfies. destruct (c w) as [[a|e] w']; simpl; tauto. Qed.

Lemma for_each_app {A} (xs ys : list A) body w :
  for_each (xs ++ ys) body w
  = (let* _ := for_each xs body in for_each ys body) w.
Proof.
  revert w. induction xs as [|x xs IH]; intros w; simpl.
  - reflexivity.
  - unfold bind. destruct (body x w) as [[[]|e] w1]; [|reflexivity].
    rewrite IH. reflexivity.
Qed.

(** An invariant that every run of the body keeps, however it ends, is kept
    by the loop. *)
Lemma for_each_keeps {A} (P : World → Prop) (xs : list A) body w :
  (∀ x w, x ∈ xs → P w → P (run (body x) w)) →
  P w → P (run (for_each xs body) w).
Proof.
  revert w. induction xs as [|x xs IH]; intros w Hb Hw; [exact Hw|].
  unfold run in *. simpl. unfold bind.
  specialize (Hb x w (list_elem_of_here _ _) Hw) as Hx.
  destruct (body x w) as [[[]|e] w1]; simpl in *; [|exact Hx].
  apply IH; [|exact Hx]. intros y w' Hy. apply Hb.
  by apply list_elem_of_further.
Qed.

Lemma for_in_keeps (P : World → Prop) fuel l i body w :
  (∀ x w, P w → P (run (body x) w)) →
  P w → P (run (for_in fuel l i body) w).
Proof.
  intros Hb. revert i w. induction fuel as [|n IH]; intros i w Hw;
    unfold run in *; simpl.
  - destruct (lsts w !! l) as [xs|]; [|exact Hw].
    destruct (xs !! i); exact Hw.
  - destruct (lsts w !! l) as [xs|]; [|exact Hw].
    destruct (xs !! i) as [x|]; [|exact Hw].
    unfold bind. specialize (Hb x w Hw).
    destruct (body x w) as [[[]|e] w1]; simpl in *; [|exact Hb].
    by apply IH.
Qed.

(** ** [off] *)

Lemma keep_others_eq cb xs w :
  (∀ a, a ∈ xs → is_Some (objs w !! a)) →
  keep_others cb xs w = (Return (others w cb xs), w).
Proof.
  induction xs as [|a xs IH]; intros Hv; [reflexivity|].
  simpl. unfold bind, get_obj.
  destruct (Hv a) as [o Ho]; [left|]. rewrite Ho.
  rewrite IH by (intros; apply Hv; by right).
  unfold ret, others. rewrite filter_cons.
  assert (Hc : cb_of w a = Some (callback o)) by (unfold cb_of; by rewrite Ho).
  rewrite Hc. repeat case_decide; try reflexivity; congruence.
Qed.

Lemma off_one_eq e cb w l xs :
  _on_off_events w !! e = Some l → lsts w !! l = Some xs →
  (∀ a, a ∈ xs → is_Some (objs w !! a)) →
  off (Str e) cb w = (Return tt, rebind w e (others w cb xs)).
Proof.
  intros He Hl Hv. unfold off. simpl. unfold bind, dict_getitem, get_list.
  rewrite He, Hl, (keep_others_eq _ _ _ Hv). reflexivity.
Qed.

Lemma off_cons e es cb w :
  off (Strs (e :: es)) cb w
  = (let* _ := off (Str e) cb in off (Strs es) cb) w.
Proof.
  unfold off. simpl. unfold bind.
  destruct (dict_getitem e w) as [[l|x] w1]; [|reflexivity].
  destruct (get_list l w1) as [[xs|x] w2]; [|reflexivity].
  destruct (keep_others cb xs w2) as [[ys|x] w3]; [|reflexivity].
  destruct (new_list ys w3) as [[l'|x] w4]; [|reflexivity].
  destruct (dict_setitem e l' w4) as [[[]|x] w5]; reflexivity.
Qed.

Lemma listeners_rebind_eq w e ys : listeners (rebind w e ys) e = Some ys.
Proof.
  unfold listeners, rebind. simpl. rewrite lookup_insert_eq.
  rewrite lookup_app_r by lia. by rewrite Nat.sub_diag.
Qed.

Lemma listeners_rebind_ne w e e' ys :
  wf w → e' ≠ e → listeners (rebind w e ys) e' = listeners w e'.
Proof.
  intros Hw Hne. unfold listeners, rebind. simpl.
  rewrite lookup_insert_ne by done.
  destruct (_on_off_events w !! e') as [l|] eqn:He; [|done].
  apply lookup_app_l, lookup_lt_is_Some. eapply wf_bound; eauto.
Qed.

Lemma listeners_Some w e xs :
  listeners w e = Some xs →
  ∃ l, _on_off_events w !! e = Some l ∧ lsts w !! l = Some xs.
Proof. unfold listeners. destruct (_ !! e) as [l|]; [eauto|done]. Qed.

Lemma wf_listeners_cells w e xs a :
  wf w → listeners w e = Some xs → a ∈ xs → is_Some (objs w !! a).
Proof.
  intros Hw (l & _ & Hl)%listeners_Some Ha. eapply wf_cells; eauto.
Qed.

Lemma wf_rebind w e xs ys :
  wf w → listeners w e = Some xs → sublist ys xs → wf (rebind w e ys).
Proof.
  intros Hw Hxs Hsub.
  assert (Hin : ∀ a, a ∈ ys → a ∈ xs)
    by (intros a Ha; eapply elem_of_sublist; eauto).
  assert (Hls : ∀ e', listeners (rebind w e ys) e'
                      = if decide (e' = e) then Some ys else listeners w e').
  { intros e'. case_decide as Hd.
    - subst. apply listeners_rebind_eq.
    - by apply listeners_rebind_ne. }
  split.
  - intros e' l. unfold rebind. simpl.
    destruct (decide (e' = e)) as [->|Hne].
    + rewrite lookup_insert_eq. intros [= <-].
      apply lookup_lt_is_Some. rewrite length_app. simpl. lia.
    + rewrite lookup_insert_ne by done. intros He'.
      apply lookup_lt_is_Some. rewrite length_app.
      apply (wf_bound _ Hw), lookup_lt_is_Some in He'. lia.
  - intros l zs a. unfold rebind. simpl. intros Hl Ha.
    destruct (decide (l < length (lsts w))) as [Hlt|Hge].
    + rewrite lookup_app_l in Hl by done. eapply wf_cells; eauto.
    + rewrite lookup_app_r in Hl by lia.
      destruct (l - length (lsts w)) as [|n]; simpl in Hl; [|done].
      injection Hl as <-. eapply wf_listeners_cells; eauto.
  - intros e1 e2 l. unfold rebind. simpl.
    destruct (decide (e1 = e)) as [->|H1], (decide (e2 = e)) as [->|H2];
      rewrite ?lookup_insert_eq, ?lookup_insert_ne by done;
      try done.
    + intros [= <-] He2. apply (wf_bound _ Hw), lookup_lt_is_Some in He2. lia.
    + intros He1 [= <-]. apply (wf_bound _ Hw), lookup_lt_is_Some in He1. lia.
    + apply (wf_inj _ Hw).
  - intros e' zs. rewrite Hls. case_decide.
    + intros [= <-]. eapply sublist_NoDup; [|exact Hsub].
      eapply wf_nodup; eauto.
    + apply (wf_nodup _ Hw).
  - intros e1 e2 xs1 xs2 a. rewrite !Hls.
    destruct (decide (e1 = e)) as [->|H1], (decide (e2 = e)) as [->|H2];
      try done.
    + intros [= <-] H2' Ha1 Ha2. eapply (wf_own _ Hw e e2); eauto.
    + intros H1' [= <-] Ha1 Ha2. eapply (wf_own _ Hw e1 e); eauto.
    + apply (wf_own _ Hw).
  - intros a o. unfold rebind. simpl. apply (wf_calls _ Hw).
Qed.

Lemma others_sublist w cb xs : sublist (others w cb xs) xs.
Proof. apply sublist_filter. Qed.

Lemma others_idemp w cb xs : others w cb (others w cb xs) = others w cb xs.
Proof.
  unfold others. rewrite list_filter_filter. apply list_filter_iff. tauto.
Qed.

Lemma others_ext w w' cb :
  objs w' = objs w → others w' cb = others w cb.
Proof. intros Ho. unfold others, cb_of. by rewrite Ho. Qed.

Lemma off_as_list events cb : off events cb = off (Strs (as_list events)) cb.
Proof. by destruct events. Qed.

Lemma off_unbound e es cb w :
  _on_off_events w !! e = None →
  off (Strs (e :: es)) cb w = (Raise (KeyError e), w).
Proof.
  intros He. unfold off. simpl. unfold bind, dict_getitem. by rewrite He.
Qed.

(** What [off] does on names that are all bound: it returns, and every named
    sequence loses the records of the callback; nothing else changes. *)
Lemma off_spec es cb w :
  wf w → (∀ e, e ∈ es → is_Some (_on_off_events w !! e)) →
  ∃ w', off (Strs es) cb w = (Return tt, w') ∧ wf w'
    ∧ objs w' = objs w ∧ journal w' = journal w
    ∧ (∀ e, is_Some (_on_off_events w' !! e) ↔ is_Some (_on_off_events w !! e))
    ∧ (∀ e, listeners w' e
            = if decide (e ∈ es) then others w cb <$> listeners w e
              else listeners w e).
Proof.
  revert w. induction es as [|e es IH]; intros w Hw Hb.
  - exists w. do 5 (split; [done|]).
    intros e. rewrite decide_False; [done|]. apply not_elem_of_nil.
  - destruct (Hb e) as [l He]; [left|].
    destruct (wf_bound _ Hw _ _ He) as [xs Hl].
    assert (Hxs : listeners w e = Some xs) by (unfold listeners; by rewrite He).
    pose proof (off_one_eq e cb w l xs He Hl
      (λ a Ha, wf_cells _ Hw _ _ _ Hl Ha)) as Hoff.
    set (w1 := rebind w e (others w cb xs)) in *.
    assert (Hw1 : wf w1) by (eapply wf_rebind; eauto using others_sublist).
    assert (Hd1 : ∀ e', is_Some (_on_off_events w1 !! e')
                        ↔ is_Some (_on_off_events w !! e')).
    { intros e'. unfold w1, rebind. simpl. destruct (decide (e' = e)) as [->|].
      - rewrite lookup_insert_eq, He. split; eauto.
      - by rewrite lookup_insert_ne. }
    destruct (IH w1 Hw1) as (w' & Hrun & Hw' & Ho & Hj & Hd & Hv).
    { intros e' He'. apply Hd1, Hb. by right. }
    exists w'. split; [|split; [done|split; [|split; [|split]]]].
    + rewrite off_cons. unfold bind. rewrite Hoff. exact Hrun.
    + by rewrite Ho.
    + by rewrite Hj.
    + intros e'. by rewrite Hd, Hd1.
    + intros e'. rewrite Hv.
      rewrite (others_ext w w1) by done.
      destruct (decide (e' = e)) as [->|Hne].
      * unfold w1. rewrite listeners_rebind_eq, Hxs. simpl.
        rewrite others_idemp.
        rewrite (decide_True (P := e ∈ e :: es)) by left.
        by case_decide.
      * unfold w1. rewrite listeners_rebind_ne by done.
        destruct (decide (e' ∈ es)) as [Hin|Hin].
        -- rewrite decide_True; [done|by right].
        -- rewrite decide_False; [done|]. by intros [?|?]%elem_of_cons.
Qed.

(** ** [on] *)

(** A store that differs from [w] by one new [callback_obj], appended to the
    list [l] that [e] is (now) bound to. *)
Lemma wf_extend w w' e l zs o :
  wf w →
  objs w' = objs w ++ [o] → (0 ≤ calls o)%Z →
  _on_off_events w' = <[e := l]> (_on_off_events w) →
  lsts w' !! l = Some (zs ++ [length (objs w)]) →
  (listeners w e = Some zs ∨ (_on_off_events w !! e = None ∧ zs = [])) →
  (∀ k xs, k ≠ l → lsts w' !! k = Some xs → xs = [] ∨ lsts w !! k = Some xs) →
  (∀ k xs, k ≠ l → lsts w !! k = Some xs → lsts w' !! k = Some xs) →
  (∀ e', e' ≠ e → _on_off_events w !! e' ≠ Some l) →
  wf w' ∧ listeners w' e = Some (zs ++ [length (objs w)])
  ∧ ∀ e', e' ≠ e → listeners w' e' = listeners w e'.
Proof.
  intros Hw Ho Hc Hd Hl Hzs Hnew Hold Hfresh.
  assert (Hle : listeners w' e = Some (zs ++ [length (objs w)])).
  { unfold listeners. by rewrite Hd, lookup_insert_eq. }
  assert (Hlo : ∀ e', e' ≠ e → listeners w' e' = listeners w e').
  { intros e' Hne. unfold listeners. rewrite Hd, lookup_insert_ne by done.
    destruct (_on_off_events w !! e') as [k|] eqn:Hk; [|done].
    destruct (wf_bound _ Hw _ _ Hk) as [xs Hxs]. rewrite Hxs.
    apply Hold; [|done]. intros ->. by apply (Hfresh e'). }
  assert (Hzv : ∀ a, a ∈ zs → a < length (objs w)).
  { intros a Ha. destruct Hzs as [Hzs|[_ ->]]; [|by apply elem_of_nil in Ha].
    apply lookup_lt_is_Some. eapply wf_listeners_cells; eauto. }
  assert (Hov : ∀ e' xs a, e' ≠ e → listeners w e' = Some xs → a ∈ xs →
                           a < length (objs w)).
  { intros e' xs a _ Hxs Ha. apply lookup_lt_is_Some.
    eapply wf_listeners_cells; eauto. }
  split; [|done]. split.
  - intros e' k. rewrite Hd. destruct (decide (e' = e)) as [->|Hne].
    + rewrite lookup_insert_eq. intros [= <-]. eauto.
    + rewrite lookup_insert_ne by done. intros Hk.
      destruct (wf_bound _ Hw _ _ Hk) as [xs Hxs]. exists xs.
      apply Hold; [|done]. intros ->. by apply (Hfresh e').
  - intros k xs a Hk Ha. apply lookup_lt_is_Some. rewrite Ho, length_app. simpl.
    destruct (decide (k = l)) as [->|Hne].
    + rewrite Hl in Hk. injection Hk as <-.
      apply elem_of_app in Ha as [Ha|Ha%list_elem_of_singleton];
        [apply Hzv in Ha|]; lia.
    + destruct (Hnew k xs Hne Hk) as [->|Hk']; [by apply elem_of_nil in Ha|].
      pose proof (wf_cells _ Hw _ _ _ Hk' Ha) as Hv%lookup_lt_is_Some. lia.
  - intros e1 e2 k. rewrite Hd.
    destruct (decide (e1 = e)) as [->|H1], (decide (e2 = e)) as [->|H2];
      rewrite ?lookup_insert_eq, ?lookup_insert_ne by done; try done.
    + intros [= <-] H. by apply Hfresh in H.
    + intros H [= <-]. by apply Hfresh in H.
    + apply (wf_inj _ Hw).
  - intros e' xs. destruct (decide (e' = e)) as [->|Hne].
    + rewrite Hle. intros [= <-]. apply NoDup_app. split; [|split].
      * destruct Hzs as [Hzs|[_ ->]]; [by eapply wf_nodup|constructor].
      * intros a Ha ->%list_elem_of_singleton. apply Hzv in Ha. lia.
      * apply NoDup_singleton.
    + rewrite Hlo by done. apply (wf_nodup _ Hw).
  - assert (Hcross : ∀ e' xs a, e' ≠ e → listeners w e' = Some xs →
                       a ∈ zs ++ [length (objs w)] → a ∈ xs → False).
    { intros e' xs a Hne Hxs [Ha|Ha%list_elem_of_singleton]%elem_of_app Hax.
      - destruct Hzs as [Hzs|[_ ->]]; [|by apply elem_of_nil in Ha].
        apply Hne. symmetry. eapply (wf_own _ Hw e e'); eauto.
      - subst a. apply (Hov e' xs _ Hne Hxs) in Hax. lia. }
    intros e1 e2 xs1 xs2 a.
    destruct (decide (e1 = e)) as [->|H1], (decide (e2 = e)) as [->|H2];
      rewrite ?Hle, ?Hlo by done; try done.
    + intros [= <-] Hx2 Ha1 Ha2. destruct (Hcross e2 xs2 a); auto.
    + intros Hx1 [= <-] Ha1 Ha2. destruct (Hcross e1 xs1 a); auto.
    + apply (wf_own _ Hw).
  - intros a o'. rewrite Ho. intros Ha.
    apply lookup_app_Some in Ha as [Ha|[_ Ha]].
    + by eapply wf_calls.
    + apply list_lookup_singleton_Some in Ha as [_ <-]. done.
Qed.

Lemma on_one_spec e cb t w :
  wf w →
  ∃ w', on (Str e) cb t w = (Return tt, w') ∧ wf w'
    ∧ objs w' = objs w ++ [mkObj cb t 0] ∧ journal w' = journal w
    ∧ listeners w' e = Some (default [] (listeners w e) ++ [length (objs w)])
    ∧ (∀ e', e' ≠ e → listeners w' e' = listeners w e')
    ∧ (∀ e', is_Some (_on_off_events w' !! e')
             ↔ e' = e ∨ is_Some (_on_off_events w !! e')).
Proof.
  intros Hw. unfold on. simpl.
  unfold bind, new_list, dict_setdefault, new_obj, list_append, ret. simpl.
  destruct (_on_off_events w !! e) as [l|] eqn:He.
  - destruct (wf_bound _ Hw _ _ He) as [xs Hxs].
    pose proof (lookup_lt_Some _ _ _ Hxs) as Hlt.
    simpl. rewrite lookup_app_l, Hxs by done.
    eexists. split; [reflexivity|].
    assert (Hls : listeners w e = Some xs) by (unfold listeners; by rewrite He).
    rewrite Hls. simpl.
    edestruct wf_extend with (w := w) (zs := xs) as (Hw' & Hle & Hlo);
      [exact Hw| | | | | | | | |
       split; [exact Hw'|];
       split; [|split; [|split; [exact Hle|split; [exact Hlo|]]]]];
      simpl; try reflexivity; try done.
    + symmetry. by apply insert_id.
    + apply list_lookup_insert_eq. rewrite length_app. simpl. lia.
    + by left.
    + intros k ys Hne. rewrite list_lookup_insert_ne by done.
      intros [Hk|[_ Hk]]%lookup_app_Some; [by right|left].
      apply list_lookup_singleton_Some in Hk as [_ <-]. done.
    + intros k ys Hne Hk. rewrite list_lookup_insert_ne by done.
      apply lookup_app_l_Some. done.
    + intros e' Hne He'. apply Hne. eapply wf_inj; eauto.
    + intros e'. split; [by right|]. intros [->|?]; [by rewrite He|done].
  - simpl. rewrite lookup_app_r by lia. rewrite Nat.sub_diag. simpl.
    eexists. split; [reflexivity|].
    assert (Hls : listeners w e = None) by (unfold listeners; by rewrite He).
    rewrite Hls. simpl.
    edestruct wf_extend with (w := w) (zs := @nil nat)
      as (Hw' & Hle & Hlo);
      [exact Hw| | | | | | | | |
       split; [exact Hw'|];
       split; [|split; [|split; [exact Hle|split; [exact Hlo|]]]]];
      simpl; try reflexivity; try done.
    + apply list_lookup_insert_eq. rewrite length_app. simpl. lia.
    + by right.
    + intros k ys Hne. rewrite list_lookup_insert_ne by done.
      intros [Hk|[_ Hk]]%lookup_app_Some; [by right|left].
      apply list_lookup_singleton_Some in Hk as [_ <-]. done.
    + intros k ys Hne Hk. rewrite list_lookup_insert_ne by done.
      apply lookup_app_l_Some. done.
    + intros e' Hne He'.
      apply (wf_bound _ Hw), lookup_lt_is_Some in He'. lia.
    + intros e'. destruct (decide (e' = e)) as [->|Hne].
      * rewrite lookup_insert_eq. split; eauto.
      * rewrite lookup_insert_ne by done. split; [by right|].
        by intros [?|?].
Qed.

(** ** [trigger]: one record *)

Lemma wf_same w w' :
  objs w' = objs w → lsts w' = lsts w →
  _on_off_events w' = _on_off_events w → wf w → wf w'.
Proof.
  intros Ho Hl Hd Hw.
  assert (Hls : ∀ e, listeners w' e = listeners w e).
  { intros e. unfold listeners. by rewrite Hd, Hl. }
  split.
  - intros e l. rewrite Hd, Hl. apply (wf_bound _ Hw).
  - intros l xs a. rewrite Hl, Ho. apply (wf_cells _ Hw).
  - intros e1 e2 l. rewrite Hd. apply (wf_inj _ Hw).
  - intros e xs. rewrite Hls. apply (wf_nodup _ Hw).
  - intros e1 e2 xs1 xs2 a. rewrite !Hls. apply (wf_own _ Hw).
  - intros a o. rewrite Ho. apply (wf_calls _ Hw).
Qed.

Lemma wf_called w c : wf w → wf (called w c).
Proof. by apply wf_same. Qed.

Lemma wf_bumped w a o : wf w → objs w !! a = Some o → wf (bumped w a o).
Proof.
  intros Hw Ha.
  assert (Hls : ∀ e, listeners (bumped w a o) e = listeners w e) by done.
  split.
  - apply (wf_bound _ Hw).
  - intros l xs b Hl Hb. unfold bumped. simpl.
    apply lookup_lt_is_Some. rewrite length_insert.
    apply lookup_lt_is_Some. eapply wf_cells; eauto.
  - apply (wf_inj _ Hw).
  - intros e xs. rewrite Hls. apply (wf_nodup _ Hw).
  - intros e1 e2 xs1 xs2 b. rewrite !Hls. apply (wf_own _ Hw).
  - intros b o'. unfold bumped. simpl. intros Hb.
    destruct (decide (b = a)) as [->|Hne].
    + rewrite list_lookup_insert_eq in Hb by (by eapply lookup_lt_Some).
      injection Hb as <-. simpl. pose proof (wf_calls _ Hw _ _ Ha). lia.
    + rewrite list_lookup_insert_ne in Hb by done. by eapply wf_calls.
Qed.

Lemma wf_off events cb w : wf w → wf (run (off events cb) w).
Proof.
  rewrite off_as_list. generalize (as_list events) as es. clear events.
  intros es. revert w. induction es as [|e es IH]; intros w Hw; [done|].
  unfold run. rewrite off_cons. unfold bind.
  destruct (_on_off_events w !! e) as [l|] eqn:He.
  - destruct (wf_bound _ Hw _ _ He) as [xs Hl].
    rewrite (off_one_eq e cb w l xs He Hl (λ a Ha, wf_cells _ Hw _ _ _ Hl Ha)).
    apply IH. eapply wf_rebind; eauto using others_sublist.
    unfold listeners. by rewrite He.
  - change (off (Str e) cb w) with (off (Strs [e]) cb w).
    by rewrite off_unbound.
Qed.

Section FireProofs.

Variable raises : list Call → Callback → Args → bool.

Lemma fire_eq e args a w o :
  objs w !! a = Some o →
  fire raises e args a w
  = if raises (journal w) (callback o) args
    then (Raise (CallbackError (callback o)), called w (callback o, args))
    else
      let w1 := bumped (called w (callback o, args)) a o in
      if calls_eq_times (bump o) then off (Str e) (callback o) w1
      else (Return tt, w1).
Proof.
  intros Ho. unfold fire, bind, get_obj, call, set_obj. rewrite Ho.
  destruct (raises (journal w) (callback o) args); [reflexivity|].
  simpl. repeat (rewrite Ho; simpl).
  rewrite list_lookup_insert_eq by (by eapply lookup_lt_Some).
  fold (bump o). destruct (calls_eq_times (bump o)); reflexivity.
Qed.

Lemma fire_dangling e args a w :
  objs w !! a = None → fire raises e args a w = (Raise Dangling, w).
Proof. intros Ho. unfold fire, bind, get_obj. by rewrite Ho. Qed.

Lemma wf_fire e args a w : wf w → wf (run (fire raises e args a) w).
Proof.
  intros Hw. unfold run. destruct (objs w !! a) as [o|] eqn:Ho.
  - rewrite (fire_eq _ _ _ _ _ Ho).
    destruct (raises _ _ _); [by apply wf_called|]. simpl.
    assert (wf (bumped (called w (callback o, args)) a o))
      by (apply wf_bumped; [by apply wf_called|done]).
    destruct (calls_eq_times _); [|done]. by apply wf_off.
  - by rewrite fire_dangling.
Qed.

Lemma wf_dispatch e args w : wf w → wf (run (dispatch raises e args) w).
Proof.
  intros Hw. unfold run, dispatch, for_list, bind, dict_getitem, get_list.
  destruct (_on_off_events w !! e) as [l|]; [|done].
  destruct (lsts w !! l) as [xs|]; [|done].
  apply (for_in_keeps wf); [|done]. intros. by apply wf_fire.
Qed.

Lemma wf_trigger events args w :
  wf w → wf (run (trigger raises events args) w).
Proof.
  intros Hw. apply (for_each_keeps wf); [|done].
  intros e w1 _ Hw1. unfold run, visit, bind, dict_contains.
  case_bool_decide; [|done]. by apply wf_dispatch.
Qed.

End FireProofs.

(** ** [trigger]: one pass *)

Lemma filter_all {A} (P : A → Prop) `{∀ x, Decision (P x)} (l : list A) :
  (∀ x, x ∈ l → P x) → filter P l = l.
Proof.
  induction l as [|x l IH]; intros HP; [done|].
  rewrite filter_cons_True by (apply HP; left).
  f_equal. apply IH. intros y Hy. apply HP. by right.
Qed.

Lemma survivors_nil w rs : survivors w [] rs = rs.
Proof. unfold survivors. apply filter_all. intros. apply Forall_nil. done. Qed.

Lemma callbacks_snoc w xs a o :
  objs w !! a = Some o →
  callbacks w (xs ++ [a]) = callbacks w xs ++ [callback o].
Proof.
  intros Ho. unfold callbacks. rewrite omap_app. simpl.
  unfold cb_of. by rewrite Ho.
Qed.

Lemma exhausted_snoc w xs a o :
  objs w !! a = Some o →
  exhausted w (xs ++ [a])
  = exhausted w xs ++ (if calls_eq_times (bump o) then [callback o] else []).
Proof.
  intros Ho. unfold exhausted. rewrite omap_app. simpl. rewrite Ho.
  by destruct (calls_eq_times (bump o)).
Qed.

Lemma survivors_snoc_keep w done rs a o :
  objs w !! a = Some o → calls_eq_times (bump o) = false →
  survivors w (done ++ [a]) rs = survivors w done rs.
Proof.
  intros Ho Hc. unfold survivors.
  rewrite (exhausted_snoc _ _ _ _ Ho), Hc, app_nil_r. done.
Qed.

Lemma survivors_snoc_drop w w1 done rs a o :
  objs w !! a = Some o → calls_eq_times (bump o) = true →
  (∀ b, cb_of w1 b = cb_of w b) →
  others w1 (callback o) (survivors w done rs) = survivors w (done ++ [a]) rs.
Proof.
  intros Ho Hc Hcb. unfold survivors, others.
  rewrite (exhausted_snoc _ _ _ _ Ho), Hc, list_filter_filter.
  apply list_filter_iff. intros b. rewrite Forall_app, Forall_singleton, Hcb.
  tauto.
Qed.

Lemma total_calls_insert os a o o' :
  os !! a = Some o →
  foldr (λ o s, (calls o + s)%Z) 0%Z (<[a := o']> os)
  = (foldr (λ o s, (calls o + s)%Z) 0%Z os - calls o + calls o')%Z.
Proof.
  revert a. induction os as [|x os IH]; intros [|a] Ha; simpl in *; try done.
  - injection Ha as ->. lia.
  - rewrite (IH a Ha). lia.
Qed.

Lemma total_calls_bumped w a o :
  objs w !! a = Some o → total_calls (bumped w a o) = (total_calls w + 1)%Z.
Proof.
  intros Ho. unfold total_calls, bumped. simpl.
  rewrite (total_calls_insert _ _ _ _ Ho). simpl. lia.
Qed.

Lemma all_return_app raises j js1 js2 :
  all_return raises j (js1 ++ js2)
  ↔ all_return raises j js1 ∧ all_return raises (j ++ js1) js2.
Proof.
  revert j. induction js1 as [|c js1 IH]; intros j; simpl.
  - rewrite app_nil_r. tauto.
  - rewrite IH, <- app_assoc. simpl. tauto.
Qed.

Section Pass.

Variable raises : list Call → Callback → Args → bool.
Variables (w0 : World) (e : string) (args : Args) (l0 : nat) (rs : list nat).
Hypothesis Hw0 : wf w0.
Hypothesis He0 : _on_off_events w0 !! e = Some l0.
Hypothesis Hl0 : lsts w0 !! l0 = Some rs.

Lemma looping_start : looping raises w0 e args l0 rs 0 w0.
Proof.
  split; [|split]; [|done|done]. split; simpl; try done.
  - intros a. by destruct (objs w0 !! a).
  - lia.
  - by rewrite app_nil_r.
  - rewrite survivors_nil. unfold listeners. by rewrite He0.
Qed.

Lemma looping_listeners : listeners w0 e = Some rs.
Proof. unfold listeners. by rewrite He0. Qed.

Lemma looping_step k w a :
  looping raises w0 e args l0 rs k w → rs !! k = Some a →
  ∃ o, objs w0 !! a = Some o ∧
    if raises (journal w) (callback o) args
    then fire raises e args a w
         = (Raise (CallbackError (callback o)), called w (callback o, args))
    else ∃ w', fire raises e args a w = (Return tt, w')
           ∧ looping raises w0 e args l0 rs (S k) w'.
Proof.
  intros (Hmp & Hl & Hret) Hk.
  pose proof (mp_wf _ _ _ _ _ _ Hmp) as Hw.
  assert (Har : a ∈ rs) by (apply list_elem_of_lookup; eauto).
  destruct (wf_cells _ Hw0 _ _ _ Hl0 Har) as [o Ho].
  exists o. split; [done|].
  pose proof (wf_nodup _ Hw0 _ _ looping_listeners) as Hnd.
  assert (Hfresh : a ∉ take k rs).
  { intros (i & Hi & Hlt)%elem_of_take.
    pose proof (NoDup_lookup _ _ _ _ Hnd Hi Hk). lia. }
  assert (Hoa : objs w !! a = Some o).
  { rewrite (mp_objs _ _ _ _ _ _ Hmp). rewrite decide_False by exact Hfresh.
    by rewrite Ho. }
  rewrite (fire_eq raises _ _ _ _ _ Hoa).
  destruct (raises (journal w) (callback o) args) eqn:Hr; [done|].
  simpl. set (w1 := bumped (called w (callback o, args)) a o).
  assert (Htake : take (S k) rs = take k rs ++ [a]) by by apply take_S_r.
  assert (Hw1 : wf w1) by (apply wf_bumped; [by apply wf_called|exact Hoa]).
  assert (Hobjs : ∀ b,
    objs w1 !! b
    = (if decide (b ∈ take (S k) rs) then bump else id) <$> objs w0 !! b).
  { intros b. unfold w1, bumped. simpl. rewrite Htake.
    destruct (decide (b = a)) as [->|Hne].
    - rewrite list_lookup_insert_eq by (by eapply lookup_lt_Some).
      rewrite decide_True, Ho; [done|]. apply elem_of_app. right. by left.
    - rewrite list_lookup_insert_ne by done.
      rewrite (mp_objs _ _ _ _ _ _ Hmp).
      destruct (decide (b ∈ take k rs)) as [Hb|Hb].
      + rewrite decide_True; [done|]. apply elem_of_app. by left.
      + rewrite decide_False; [done|].
        intros [?|?%list_elem_of_singleton]%elem_of_app; done. }
  assert (Hcb : ∀ b, cb_of w1 b = cb_of w0 b).
  { intros b. unfold cb_of. rewrite Hobjs.
    destruct (objs w0 !! b), (decide _); done. }
  assert (Htot : total_calls w1 = (total_calls w0 + Z.of_nat (S k))%Z).
  { unfold w1. rewrite total_calls_bumped by done.
    change (total_calls (called w (callback o, args))) with (total_calls w).
    rewrite (mp_total _ _ _ _ _ _ Hmp). lia. }
  assert (Hj : journal w1
            = journal w0 ++ with_args args (callbacks w0 (take (S k) rs))).
  { unfold w1. simpl. rewrite (mp_journal _ _ _ _ _ _ Hmp), Htake.
    rewrite (callbacks_snoc _ _ _ _ Ho). unfold with_args.
    by rewrite map_app, app_assoc. }
  assert (Hret' : all_return raises (journal w0)
                    (with_args args (callbacks w0 (take (S k) rs)))).
  { rewrite Htake, (callbacks_snoc _ _ _ _ Ho). unfold with_args.
    rewrite map_app. apply all_return_app. split; [exact Hret|].
    simpl. split; [|done].
    fold (with_args args (callbacks w0 (take k rs))).
    by rewrite <- (mp_journal _ _ _ _ _ _ Hmp). }
  assert (Hls : ∀ e', listeners w1 e' = listeners w e') by done.
  destruct (calls_eq_times (bump o)) eqn:Hc.
  - pose proof (mp_here _ _ _ _ _ _ Hmp) as Hcur.
    destruct (listeners_Some _ _ _ Hcur) as (lc & Hlc & Hcur').
    rewrite (off_one_eq e (callback o) w1 lc _ Hlc Hcur').
    2:{ intros b Hb. eapply wf_cells; [exact Hw1|exact Hcur'|exact Hb]. }
    eexists. split; [reflexivity|].
    split; [|split]; [|..].
    + split.
      * eapply wf_rebind; [exact Hw1| |apply others_sublist].
        rewrite Hls. exact Hcur.
      * exact Hobjs.
      * exact Htot.
      * exact Hj.
      * rewrite listeners_rebind_eq, Htake. f_equal.
        by eapply survivors_snoc_drop.
      * intros e' Hne. rewrite listeners_rebind_ne by done.
        rewrite Hls. by apply (mp_else _ _ _ _ _ _ Hmp).
      * intros e'. rewrite <- (mp_keys _ _ _ _ _ _ Hmp). unfold rebind. simpl.
        destruct (decide (e' = e)) as [->|Hne].
        -- rewrite lookup_insert_eq. split; [intros _|eauto].
           exists lc. exact Hlc.
        -- by rewrite lookup_insert_ne.
    + unfold rebind. simpl. rewrite lookup_app_l; [done|].
      by eapply lookup_lt_Some.
    + exact Hret'.
  - exists w1. split; [done|]. split; [|split]; [|done|done].
    split; try done.
    + rewrite Hls, Htake, (survivors_snoc_keep _ _ _ _ _ Ho Hc).
      apply (mp_here _ _ _ _ _ _ Hmp).
    + intros e' Hne. rewrite Hls. by apply (mp_else _ _ _ _ _ _ Hmp).
    + apply (mp_keys _ _ _ _ _ _ Hmp).
Qed.

Lemma looping_run fuel k w :
  looping raises w0 e args l0 rs k w →
  k ≤ length rs → length rs ≤ fuel + k →
  ∃ k' w1, looping raises w0 e args l0 rs k' w1 ∧ k ≤ k' ∧
    ((k' = length rs
      ∧ for_in fuel l0 k (fire raises e args) w = (Return tt, w1))
     ∨ (∃ a o, rs !! k' = Some a ∧ objs w0 !! a = Some o
          ∧ raises (journal w1) (callback o) args = true
          ∧ for_in fuel l0 k (fire raises e args) w
            = (Raise (CallbackError (callback o)),
               called w1 (callback o, args)))).
Proof.
  revert k w. induction fuel as [|n IH]; intros k w Hlp Hle Hfuel.
  - assert (k = length rs) as Hk by lia.
    exists k, w. split; [done|]. split; [done|]. left. split; [done|].
    simpl. destruct Hlp as (_ & -> & _).
    rewrite (proj2 (lookup_ge_None rs k)) by lia. done.
  - pose proof Hlp as (_ & Hl & _). simpl. rewrite Hl.
    destruct (rs !! k) as [a|] eqn:Hk.
    + destruct (looping_step k w a Hlp Hk) as (o & Ho & Hstep).
      destruct (raises (journal w) (callback o) args) eqn:Hr.
      * exists k, w. split; [done|]. split; [done|]. right.
        exists a, o. unfold bind. by rewrite Hstep.
      * destruct Hstep as (w' & Hfire & Hlp').
        apply lookup_lt_Some in Hk.
        destruct (IH (S k) w' Hlp') as (k' & w1 & Hlp1 & Hkk & Hres);
          [lia|lia|].
        exists k', w1. split; [done|]. split; [lia|].
        unfold bind. rewrite Hfire. exact Hres.
    + apply lookup_ge_None in Hk.
      exists k, w. split; [done|]. split; [done|]. left. split; [lia|done].
Qed.

End Pass.

Section Dispatch.

Variable raises : list Call → Callback → Args → bool.

(** One pass of [trigger] on a bound event name, from a well-formed store:
    the pass calls the records of the sequence in order until one raises
    (or to the end), and leaves the store as [mid_pass] says. *)
Lemma dispatch_spec e args w rs :
  wf w → listeners w e = Some rs →
  ∃ k w1, mid_pass w e args rs k w1
    ∧ all_return raises (journal w) (with_args args (callbacks w (take k rs)))
    ∧ ((k = length rs ∧ dispatch raises e args w = (Return tt, w1))
       ∨ (∃ a o, rs !! k = Some a ∧ objs w !! a = Some o
            ∧ raises (journal w1) (callback o) args = true
            ∧ dispatch raises e args w
              = (Raise (CallbackError (callback o)),
                 called w1 (callback o, args)))).
Proof.
  intros Hw (l & He & Hl)%listeners_Some.
  destruct (looping_run raises w e args l rs Hw He Hl (length rs) 0 w)
    as (k & w1 & (Hmp & _ & Hret) & _ & Hres); [|lia|lia|].
  { by apply looping_start. }
  exists k, w1. split; [done|]. split; [done|].
  unfold dispatch, for_list, bind, dict_getitem, get_list. rewrite He, Hl.
  exact Hres.
Qed.

End Dispatch.

(** ** [trigger]: all passes *)

Section TriggerProofs.

Variable raises : list Call → Callback → Args → bool.

Lemma wf_listeners_None w e :
  wf w → listeners w e = None → _on_off_events w !! e = None.
Proof.
  intros Hw. unfold listeners.
  destruct (_on_off_events w !! e) as [l|] eqn:He; [|done].
  destruct (wf_bound _ Hw _ _ He) as [xs ->]. done.
Qed.

Lemma visit_unbound args e w :
  _on_off_events w !! e = None → visit raises args e w = (Return tt, w).
Proof.
  intros He. unfold visit, bind, dict_contains. rewrite He.
  rewrite bool_decide_eq_false_2; [done|]. by intros [? ?].
Qed.

Lemma visit_bound args e w :
  is_Some (_on_off_events w !! e) →
  visit raises args e w = dispatch raises e args w.
Proof.
  intros He. unfold visit, bind, dict_contains.
  by rewrite bool_decide_eq_true_2.
Qed.

(** What one round of the outer loop does. *)
Lemma visit_spec args e w :
  wf w →
  (listeners w e = None ∧ visit raises args e w = (Return tt, w))
  ∨ ∃ rs k w1, listeners w e = Some rs ∧ mid_pass w e args rs k w1
      ∧ all_return raises (journal w)
          (with_args args (callbacks w (take k rs)))
      ∧ ((k = length rs ∧ visit raises args e w = (Return tt, w1))
         ∨ (∃ a o, rs !! k = Some a ∧ objs w !! a = Some o
              ∧ raises (journal w1) (callback o) args = true
              ∧ visit raises args e w
                = (Raise (CallbackError (callback o)),
                   called w1 (callback o, args)))).
Proof.
  intros Hw. destruct (listeners w e) as [rs|] eqn:Hrs.
  - right. destruct (dispatch_spec raises e args w rs Hw Hrs)
      as (k & w1 & Hmp & Hret & Hres).
    exists rs, k, w1. split; [done|]. split; [done|]. split; [done|].
    rewrite visit_bound; [done|].
    apply listeners_Some in Hrs as (l & -> & _). eauto.
  - left. split; [done|]. apply visit_unbound. by apply wf_listeners_None.
Qed.

(** A property of the store that every pass keeps, wherever the pass stops,
    is kept by [trigger]. *)
Lemma trigger_keeps (P : World → Prop) events args w :
  (∀ w e rs k w1, wf w → P w → listeners w e = Some rs →
     mid_pass w e args rs k w1 → P w1) →
  (∀ w c, P w → P (called w c)) →
  wf w → P w → P (run (trigger raises events args) w).
Proof.
  intros Hpass Hcall Hw HP.
  cut (wf (run (trigger raises events args) w)
       ∧ P (run (trigger raises events args) w)); [tauto|].
  apply (for_each_keeps (λ w, wf w ∧ P w)); [|done].
  clear w Hw HP. intros e w _ [Hw HP]. unfold run.
  destruct (visit_spec args e w Hw)
    as [[_ ->]|(rs & k & w1 & Hrs & Hmp & _
                  & [[_ ->]|(a & o & _ & _ & _ & ->)])];
    simpl; [done| |].
  - split; [apply (mp_wf _ _ _ _ _ _ Hmp)|eauto].
  - split; [apply wf_called, (mp_wf _ _ _ _ _ _ Hmp)|eauto].
Qed.

End TriggerProofs.

(** ** Stores built from [init] *)

Lemma wf_init : wf init.
Proof.
  split; done.
Qed.

Lemma on_as_list events cb t : on events cb t = on (Strs (as_list events)) cb t.
Proof. by destruct events. Qed.

Lemma on_cons e es cb t w :
  on (Strs (e :: es)) cb t w
  = (let* _ := on (Str e) cb t in on (Strs es) cb t) w.
Proof.
  unfold on. simpl. unfold bind.
  destruct (new_list [] w) as [[l|x] w1]; [|reflexivity].
  destruct (dict_setdefault e l w1) as [[l'|x] w2]; [|reflexivity].
  destruct (new_obj _ w2) as [[a|x] w3]; [|reflexivity].
  destruct (list_append l' a w3) as [[[]|x] w4]; reflexivity.
Qed.

Lemma on_returns events cb t w :
  wf w → ∃ w', on events cb t w = (Return tt, w') ∧ wf w'
    ∧ journal w' = journal w.
Proof.
  rewrite on_as_list. generalize (as_list events) as es. clear events.
  intros es. revert w. induction es as [|e es IH]; intros w Hw.
  - by exists w.
  - destruct (on_one_spec e cb t w Hw) as (w1 & Hon & Hw1 & _ & Hj & _).
    destruct (IH w1 Hw1) as (w' & Hon' & Hw' & Hj').
    exists w'. split; [|split; [done|congruence]].
    rewrite on_cons. unfold bind. by rewrite Hon.
Qed.

Lemma wf_on events cb t w : wf w → wf (run (on events cb t) w).
Proof.
  intros Hw. unfold run.
  by destruct (on_returns events cb t w Hw) as (w' & -> & Hw' & _).
Qed.

(** ** Passes in which every call returns *)

Section Returns.

Variable raises : list Call → Callback → Args → bool.

Lemma all_return_nth j args w rs k a o :
  all_return raises j (with_args args (callbacks w rs)) →
  rs !! k = Some a → objs w !! a = Some o →
  raises (j ++ with_args args (callbacks w (take k rs))) (callback o) args
  = false.
Proof.
  intros Hret Hk Ho.
  rewrite <- (take_drop_middle rs k a Hk) in Hret.
  unfold callbacks, with_args in *. rewrite omap_app, map_app in Hret.
  apply all_return_app in Hret as [_ Hret]. simpl in Hret.
  unfold cb_of in Hret at 2. rewrite Ho in Hret. simpl in Hret. tauto.
Qed.

Lemma pass_returns e args w rs :
  wf w → listeners w e = Some rs →
  all_return raises (journal w) (with_args args (callbacks w rs)) →
  ∃ w', dispatch raises e args w = (Return tt, w')
    ∧ mid_pass w e args rs (length rs) w'.
Proof.
  intros Hw Hrs Hret.
  destruct (dispatch_spec raises e args w rs Hw Hrs)
    as (k & w1 & Hmp & _ & [[-> Hres]|(a & o & Hk & Ho & Hr & _)]).
  - by exists w1.
  - rewrite (mp_journal _ _ _ _ _ _ Hmp) in Hr.
    by rewrite (all_return_nth _ _ _ _ _ _ _ Hret Hk Ho) in Hr.
Qed.

End Returns.


(** ** Sequences of registrations *)

Lemma exhausted_none w xs :
  (∀ a o, a ∈ xs → objs w !! a = Some o → calls_eq_times (bump o) = false) →
  exhausted w xs = [].
Proof.
  induction xs as [|a xs IH]; intros Hx; [done|].
  unfold exhausted in *. simpl.
  destruct (objs w !! a) as [o|] eqn:Ho.
  - rewrite (Hx a o) by (done || left). apply IH.
    intros b ob Hb. apply Hx. by right.
  - apply IH. intros b ob Hb. apply Hx. by right.
Qed.

Lemma survivors_all w done rs :
  exhausted w done = [] → survivors w done rs = rs.
Proof.
  intros Hex. unfold survivors. rewrite Hex.
  apply filter_all. intros. by apply Forall_nil.
Qed.

Lemma subscribe_all_spec e cbs w0 :
  wf w0 →
  ∃ w, for_each cbs (λ cb, on (Str e) cb None) w0 = (Return tt, w)
    ∧ wf w ∧ journal w = journal w0
    ∧ objs w = objs w0 ++ map (λ c, mkObj c None 0) cbs
    ∧ default [] (listeners w e)
      = default [] (listeners w0 e) ++ seq (length (objs w0)) (length cbs).
Proof.
  revert w0. induction cbs as [|c cbs IH]; intros w0 Hw0.
  - exists w0. simpl. by rewrite !app_nil_r.
  - destruct (on_one_spec e c None w0 Hw0)
      as (w1 & Hon & Hw1 & Ho1 & Hj1 & Hl1 & _).
    destruct (IH w1 Hw1) as (w & Hrun & Hw & Hj & Ho & Hl).
    exists w. split; [|split; [done|split; [congruence|split]]].
    + simpl. unfold bind. by rewrite Hon.
    + rewrite Ho, Ho1, <- app_assoc. done.
    + rewrite Hl, Hl1, Ho1, length_app. simpl.
      by rewrite <- app_assoc, Nat.add_1_r.
Qed.

Lemma callbacks_seq w os cbs :
  objs w = os ++ map (λ c, mkObj c None 0) cbs →
  callbacks w (seq (length os) (length cbs)) = cbs.
Proof.
  revert os. induction cbs as [|c cbs IH]; intros os Ho; [done|].
  unfold callbacks in *. simpl.
  assert (Hc : cb_of w (length os) = Some c).
  { unfold cb_of. rewrite Ho, lookup_app_r, Nat.sub_diag by lia. done. }
  rewrite Hc. f_equal.
  specialize (IH (os ++ [mkObj c None 0])).
  rewrite length_app, Nat.add_1_r in IH. apply IH.
  by rewrite Ho, <- app_assoc.
Qed.

Lemma lookup_registered w os cbs i c :
  objs w = os ++ map (λ c, mkObj c None 0) cbs → cbs !! i = Some c →
  objs w !! (length os + i) = Some (mkObj c None 0).
Proof.
  intros Ho Hc. rewrite Ho, lookup_app_r by lia.
  replace (length os + i - length os) with i by lia.
  by rewrite list_lookup_fmap, Hc.
Qed.

Section Lone.

Variable raises : list Call → Callback → Args → bool.

Lemma trigger_one e args w :
  trigger raises (Str e) args w = (let* _ := visit raises args e in ret tt) w.
Proof. reflexivity. Qed.

(** [trigger] on a name whose sequence holds one record. *)
Lemma lone_listener_step e args w a o :
  wf w → listeners w e = Some [a] → objs w !! a = Some o →
  raises (journal w) (callback o) args = false →
  ∃ w', trigger raises (Str e) args w = (Return tt, w') ∧ wf w'
    ∧ objs w' !! a = Some (bump o)
    ∧ journal w' = journal w ++ [(callback o, args)]
    ∧ listeners w' e = Some (if calls_eq_times (bump o) then [] else [a]).
Proof.
  intros Hw Hrs Ho Hr.
  assert (Hcb : callbacks w [a] = [callback o]).
  { unfold callbacks, cb_of. simpl. by rewrite Ho. }
  destruct (pass_returns raises e args w [a] Hw Hrs) as (w' & Hrun & Hmp).
  { rewrite Hcb. simpl. done. }
  exists w'. split; [|split; [apply (mp_wf _ _ _ _ _ _ Hmp)|split; [|split]]].
  - rewrite trigger_one. unfold bind. rewrite visit_bound, Hrun; [done|].
    apply listeners_Some in Hrs as (l & -> & _). eauto.
  - rewrite (mp_objs _ _ _ _ _ _ Hmp). simpl.
    rewrite decide_True, Ho by left. done.
  - rewrite (mp_journal _ _ _ _ _ _ Hmp).
    change (take (length [a]) [a]) with [a]. by rewrite Hcb.
  - rewrite (mp_here _ _ _ _ _ _ Hmp). simpl. f_equal.
    unfold survivors, exhausted. simpl. rewrite Ho.
    assert (Hc : cb_of w a = Some (callback o))
      by (unfold cb_of; by rewrite Ho).
    destruct (calls_eq_times (bump o)); simpl.
    + rewrite filter_cons_False; [done|].
      intros Hf. apply (proj1 (Forall_singleton _ _)) in Hf. by apply Hf.
    + rewrite filter_cons_True; [done|]. constructor.
Qed.


End Lone.

(** ** Exceptions of callbacks *)

Lemma callbacks_length w xs :
  (∀ a, a ∈ xs → is_Some (objs w !! a)) → length (callbacks w xs) = length xs.
Proof.
  induction xs as [|a xs IH]; intros Hv; [done|].
  destruct (Hv a) as [o Ho]; [left|].
  unfold callbacks, cb_of in *. simpl. rewrite Ho. simpl.
  f_equal. apply IH. intros b Hb. apply Hv. by right.
Qed.

Lemma kept_counts_refl w : kept_counts w w.
Proof. intros a o Ho. exists o. repeat split; [done|lia]. Qed.

Lemma kept_counts_trans w1 w2 w3 :
  kept_counts w1 w2 → kept_counts w2 w3 → kept_counts w1 w3.
Proof.
  intros H12 H23 a o Ho.
  destruct (H12 a o Ho) as (o2 & Ho2 & Hc2 & Ht2 & Hn2).
  destruct (H23 a o2 Ho2) as (o3 & Ho3 & Hc3 & Ht3 & Hn3).
  exists o3. repeat split; [done|congruence|congruence|lia].
Qed.

Section Faults.

Variable raises : list Call → Callback → Args → bool.
Variable args : Args.

Lemma completes_refl w : completes raises args w w.
Proof.
  exists []. rewrite app_nil_r. repeat split; try done.
  - simpl. lia.
  - apply kept_counts_refl.
Qed.

Lemma completes_trans w1 w2 w3 :
  completes raises args w1 w2 → completes raises args w2 w3 →
  completes raises args w1 w3.
Proof.
  intros (js1 & Hj1 & Ha1 & Hr1 & Ht1 & Hk1).
  intros (js2 & Hj2 & Ha2 & Hr2 & Ht2 & Hk2).
  exists (js1 ++ js2). split; [|split; [|split; [|split]]].
  - by rewrite Hj2, Hj1, app_assoc.
  - by apply Forall_app.
  - apply all_return_app. split; [done|]. by rewrite <- Hj1.
  - rewrite Ht2, Ht1, length_app. lia.
  - by eapply kept_counts_trans.
Qed.

Lemma mid_pass_completes w e rs k w1 :
  wf w → listeners w e = Some rs → k ≤ length rs →
  mid_pass w e args rs k w1 →
  all_return raises (journal w) (with_args args (callbacks w (take k rs))) →
  completes raises args w w1.
Proof.
  intros Hw Hrs Hk Hmp Hret.
  exists (with_args args (callbacks w (take k rs))).
  split; [apply (mp_journal _ _ _ _ _ _ Hmp)|]. split; [|split; [done|split]].
  - unfold with_args. apply Forall_fmap, Forall_forall. done.
  - rewrite (mp_total _ _ _ _ _ _ Hmp). unfold with_args.
    rewrite length_map, callbacks_length, length_take; [lia|].
    intros a Ha%elem_of_take. destruct Ha as (i & Hi & _).
    eapply wf_listeners_cells; [done..|].
    apply list_elem_of_lookup. eauto.
  - intros a o Ho. rewrite (mp_objs _ _ _ _ _ _ Hmp), Ho. simpl.
    destruct (decide _); eexists; (split; [done|]); simpl;
      repeat split; lia.
Qed.

End Faults.

(** ** Counts and limits *)

Lemma exhausted_elem w xs a o :
  a ∈ xs → objs w !! a = Some o → calls_eq_times (bump o) = true →
  callback o ∈ exhausted w xs.
Proof.
  intros Ha Ho Hc. unfold exhausted. apply list_elem_of_omap.
  exists a. split; [done|]. by rewrite Ho, Hc.
Qed.

Lemma exhausted_inv w xs c :
  c ∈ exhausted w xs →
  ∃ a o, a ∈ xs ∧ objs w !! a = Some o ∧ calls_eq_times (bump o) = true
    ∧ callback o = c.
Proof.
  unfold exhausted. intros (a & Ha & Hc)%list_elem_of_omap.
  destruct (objs w !! a) as [o|] eqn:Ho; [|done].
  destruct (calls_eq_times (bump o)) eqn:Hb; [|done].
  injection Hc as <-. eauto 10.
Qed.

Lemma survivors_elem w done rs a :
  a ∈ survivors w done rs
  ↔ a ∈ rs ∧ ∀ b o, b ∈ done → objs w !! b = Some o →
               calls_eq_times (bump o) = true → cb_of w a ≠ Some (callback o).
Proof.
  unfold survivors. rewrite list_elem_of_filter, Forall_forall.
  split.
  - intros [Hall Ha]. split; [done|].
    intros b o Hb Ho Hc. apply Hall. by eapply exhausted_elem.
  - intros [Ha Hall]. split; [|done].
    intros c (b & o & Hb & Ho & Hc & <-)%exhausted_inv. eauto.
Qed.

Lemma off_shrinks es cb w :
  wf w →
  objs (run (off (Strs es) cb) w) = objs w
  ∧ ∀ e xs', listeners (run (off (Strs es) cb) w) e = Some xs' →
      ∃ xs, listeners w e = Some xs ∧ ∀ a, a ∈ xs' → a ∈ xs.
Proof.
  revert w. induction es as [|e es IH]; intros w Hw.
  - split; [done|]. intros e xs' Hxs'. by exists xs'.
  - unfold run. rewrite off_cons. unfold bind.
    destruct (_on_off_events w !! e) as [l|] eqn:He.
    + destruct (wf_bound _ Hw _ _ He) as [xs Hl].
      assert (Hxs : listeners w e = Some xs)
        by (unfold listeners; by rewrite He).
      rewrite (off_one_eq e cb w l xs He Hl
        (λ a Ha, wf_cells _ Hw _ _ _ Hl Ha)).
      set (w1 := rebind w e (others w cb xs)).
      assert (Hw1 : wf w1) by (eapply wf_rebind; eauto using others_sublist).
      destruct (IH w1 Hw1) as [Ho Hsh]. unfold run in Ho, Hsh.
      split; [by rewrite Ho|].
      intros e' xs' Hxs'. destruct (Hsh e' xs' Hxs') as (ys & Hys & Hin).
      destruct (decide (e' = e)) as [->|Hne].
      * unfold w1 in Hys. rewrite listeners_rebind_eq in Hys.
        injection Hys as <-. exists xs. split; [done|].
        intros a Ha%Hin. unfold others in Ha.
        by apply list_elem_of_filter in Ha as [_ Ha].
      * unfold w1 in Hys. rewrite listeners_rebind_ne in Hys by done. eauto.
    + change (off (Str e) cb w) with (off (Strs [e]) cb w).
      rewrite off_unbound by done. simpl. split; [done|].
      intros e' xs' Hxs'. by exists xs'.
Qed.

Lemma bounded_off events cb w :
  wf w → bounded w → bounded (run (off events cb) w).
Proof.
  intros Hw [Hall Hseq]. rewrite off_as_list.
  destruct (off_shrinks (as_list events) cb w Hw) as [Ho Hsh].
  split.
  - intros a o t. rewrite Ho. apply Hall.
  - intros e xs' a o t Hxs' Ha. rewrite Ho.
    destruct (Hsh e xs' Hxs') as (xs & Hxs & Hin). eapply Hseq; eauto.
Qed.

Lemma bounded_on events cb t w :
  wf w → bounded w → bounded (run (on events cb t) w).
Proof.
  rewrite on_as_list. generalize (as_list events) as es. clear events.
  intros es. revert w. induction es as [|e es IH]; intros w Hw Hb; [done|].
  unfold run. rewrite on_cons. unfold bind.
  destruct (on_one_spec e cb t w Hw)
    as (w1 & -> & Hw1 & Ho & _ & Hle & Hlo & _).
  apply IH; [done|]. destruct Hb as [Hall Hseq].
  assert (Hnew : ∀ a o, objs w1 !! a = Some o →
            objs w !! a = Some o ∨ (a = length (objs w) ∧ o = mkObj cb t 0)).
  { intros a o. rewrite Ho. intros [?|[? Hs]]%lookup_app_Some; [by left|right].
    apply list_lookup_singleton_Some in Hs as [? <-]. split; [lia|done]. }
  split.
  - intros a o t' [Ha|[-> ->]]%Hnew; [by eapply Hall|]. simpl.
    intros _ ?. lia.
  - intros e' xs a o t' Hxs Ha [Ho'|[-> ->]]%Hnew.
    + destruct (decide (e' = e)) as [->|Hne].
      * rewrite Hle in Hxs. injection Hxs as <-.
        apply elem_of_app in Ha as [Ha|Ha%list_elem_of_singleton].
        -- destruct (listeners w e) as [xs|] eqn:Hxs; simpl in Ha;
             [by eapply Hseq|by apply elem_of_nil in Ha].
        -- apply lookup_lt_Some in Ho'. lia.
      * rewrite Hlo in Hxs by done. by eapply Hseq.
    + simpl. intros _ ?. lia.
Qed.

Lemma bounded_mid_pass w e args rs k w1 :
  wf w → bounded w → listeners w e = Some rs →
  mid_pass w e args rs k w1 → bounded w1.
Proof.
  intros Hw [Hall Hseq] Hrs Hmp.
  pose proof (mp_objs _ _ _ _ _ _ Hmp) as Ho.
  assert (Htk : ∀ a, a ∈ take k rs → a ∈ rs).
  { intros a (i & Hi & _)%elem_of_take. apply list_elem_of_lookup. eauto. }
  split.
  - intros a o1 t. rewrite Ho.
    destruct (objs w !! a) as [o|] eqn:Hoa; [|done]. simpl.
    destruct (decide (a ∈ take k rs)) as [Hin|Hin]; intros [= <-]; simpl.
    + intros Ht Hpos. pose proof (Hseq e rs a o t Hrs (Htk a Hin) Hoa Ht Hpos).
      lia.
    + apply (Hall a o t Hoa).
  - intros e' xs' a o1 t Hxs' Ha. rewrite Ho.
    destruct (objs w !! a) as [o|] eqn:Hoa; [|done]. simpl.
    destruct (decide (e' = e)) as [->|Hne].
    + rewrite (mp_here _ _ _ _ _ _ Hmp) in Hxs'. injection Hxs' as <-.
      apply survivors_elem in Ha as [Har Hsp].
      destruct (decide (a ∈ take k rs)) as [Hin|Hin]; intros [= <-]; simpl.
      * intros Ht Hpos. pose proof (Hseq e rs a o t Hrs Har Hoa Ht Hpos).
        destruct (decide (calls o + 1 = t)%Z) as [Heq|]; [|lia].
        exfalso. apply (Hsp a o Hin Hoa).
        -- unfold calls_eq_times. simpl. rewrite Ht. by apply Z.eqb_eq.
        -- unfold cb_of. by rewrite Hoa.
      * by apply (Hseq e rs a o t).
    + rewrite (mp_else _ _ _ _ _ _ Hmp) in Hxs' by done.
      rewrite decide_False.
      * intros [= <-]. by apply (Hseq e' xs' a o t).
      * intros Hin%Htk. apply Hne. by eapply (wf_own _ Hw e' e).
Qed.

Lemma bounded_trigger raises events args w :
  wf w → bounded w → bounded (run (trigger raises events args) w).
Proof.
  apply (trigger_keeps raises bounded).
  - intros. by eapply bounded_mid_pass.
  - done.
Qed.

Lemma reachable_wf_bounded raises w : reachable raises w → wf w ∧ bounded w.
Proof.
  induction 1 as [|w op _ [Hw Hb]].
  - split; [apply wf_init|]. split.
    + intros a o t Ha. done.
    + intros e xs a o t Hxs. done.
  - destruct op as [events cb t|events cb|events cb|events args]; simpl.
    + split; [by apply wf_on|by apply bounded_on].
    + split; [by apply wf_off|by apply bounded_off].
    + split; [by apply wf_on|by apply bounded_on].
    + split; [by apply wf_trigger|by apply bounded_trigger].
Qed.

(** ** Records that stay *)

Lemma dormant_bump o : dormant o → dormant (bump o).
Proof. unfold dormant. simpl. destruct (times o); [lia|done]. Qed.

Lemma dormant_not_exhausted o : dormant o → calls_eq_times (bump o) = false.
Proof.
  unfold dormant, calls_eq_times. simpl. destruct (times o) as [t|]; [|done].
  intros Ht. apply Z.eqb_neq. lia.
Qed.

Lemma persists_mid_pass w e c a t e' args rs k w1 :
  wf w → settled w e c → registered w e a c t →
  listeners w e' = Some rs → mid_pass w e' args rs k w1 →
  settled w1 e c ∧ registered w1 e a c t.
Proof.
  intros Hw Hset (xs & o & Hxs & Ha & Ho & Hc & Ht) Hrs Hmp.
  pose proof (mp_objs _ _ _ _ _ _ Hmp) as Hobjs.
  assert (Hback : ∀ b o1, objs w1 !! b = Some o1 →
            ∃ ob, objs w !! b = Some ob ∧ callback o1 = callback ob
              ∧ times o1 = times ob ∧ (dormant ob → dormant o1)).
  { intros b o1. rewrite Hobjs. destruct (objs w !! b) as [ob|]; [|done].
    simpl. intros [= <-]. exists ob. split; [done|].
    destruct (decide _); simpl; repeat split; auto using dormant_bump. }
  assert (Hfwd : ∃ o1, objs w1 !! a = Some o1 ∧ callback o1 = c ∧ times o1 = t).
  { rewrite Hobjs, Ho. simpl. eexists. split; [done|].
    by destruct (decide _). }
  destruct Hfwd as (o1 & Ho1 & Hc1 & Ht1).
  destruct (decide (e' = e)) as [->|Hne].
  - rewrite Hxs in Hrs. injection Hrs as ->.
    pose proof (mp_here _ _ _ _ _ _ Hmp) as Hhere.
    assert (Htk : ∀ b, b ∈ take k rs → b ∈ rs).
    { intros b (i & Hi & _)%elem_of_take. apply list_elem_of_lookup. eauto. }
    split.
    + intros xs' b ob1. rewrite Hhere. intros [= <-].
      intros [Hb _]%survivors_elem Hob1 Hcb.
      destruct (Hback b ob1 Hob1) as (ob & Hob & Hcb' & _ & Hd).
      apply Hd. apply (Hset rs b ob Hxs Hb Hob). congruence.
    + exists (survivors w (take k rs) rs), o1.
      split; [done|]. split; [|done].
      apply survivors_elem. split; [done|].
      intros b ob Hb Hob Hex Hsame.
      unfold cb_of in Hsame. rewrite Ho in Hsame. simpl in Hsame.
      injection Hsame as Hsame.
      assert (dormant ob) as Hd%dormant_not_exhausted
        by (apply (Hset rs b ob Hxs (Htk b Hb) Hob); congruence).
      congruence.
  - rewrite <- (mp_else _ _ _ _ _ _ Hmp e) in Hxs by done. split.
    + intros xs' b ob1. rewrite Hxs. intros [= <-] Hb Hob1 Hcb.
      destruct (Hback b ob1 Hob1) as (ob & Hob & Hcb' & _ & Hd).
      apply Hd. apply (Hset xs b ob); [|done|done|congruence].
      by rewrite <- (mp_else _ _ _ _ _ _ Hmp e).
    + by exists xs, o1.
Qed.

Section Persist.

Variable raises : list Call → Callback → Args → bool.

Lemma persists_trigger events args w e c a t :
  wf w → settled w e c → registered w e a c t →
  settled (run (trigger raises events args) w) e c
  ∧ registered (run (trigger raises events args) w) e a c t.
Proof.
  intros Hw Hs Hr.
  apply (trigger_keeps raises (λ w, settled w e c ∧ registered w e a c t));
    [| |done|done].
  - intros w0 e' rs k w1 Hw0 [Hs0 Hr0] Hrs Hmp.
    by eapply persists_mid_pass.
  - intros w0 call0 H0. exact H0.
Qed.

Lemma journal_grows events args w :
  wf w → ∃ js, journal (run (trigger raises events args) w) = journal w ++ js.
Proof.
  intros Hw.
  apply (trigger_keeps raises (λ w', ∃ js, journal w' = journal w ++ js));
    [| |done|].
  - intros w0 e' rs k w1 _ [js Hjs] _ Hmp.
    rewrite (mp_journal _ _ _ _ _ _ Hmp), Hjs, <- app_assoc. eauto.
  - intros w0 call0 [js Hjs]. simpl. rewrite Hjs, <- app_assoc. eauto.
  - exists []. by rewrite app_nil_r.
Qed.

Lemma trigger_as_list events args :
  trigger raises events args = trigger raises (Strs (as_list events)) args.
Proof. by destruct events. Qed.

Lemma trigger_split pre e post args w w' :
  trigger raises (Strs (pre ++ e :: post)) args w = (Return tt, w') →
  ∃ w1 w2, trigger raises (Strs pre) args w = (Return tt, w1)
    ∧ visit raises args e w1 = (Return tt, w2)
    ∧ trigger raises (Strs post) args w2 = (Return tt, w').
Proof.
  unfold trigger. simpl. rewrite for_each_app. unfold bind at 1.
  destruct (for_each pre (visit raises args) w) as [[[]|x] w1]; [|done].
  simpl. unfold bind.
  destruct (visit raises args e w1) as [[[]|x] w2] eqn:Hvisit; [|done].
  intros Hpost. by exists w1, w2.
Qed.

(** A pass that returns has called every record of the sequence. *)
Lemma visit_calls args e w w' a c t :
  wf w → registered w e a c t → visit raises args e w = (Return tt, w') →
  wf w' ∧ ∃ js, journal w' = journal w ++ js ∧ (c, args) ∈ js.
Proof.
  intros Hw (xs & o & Hxs & Ha & Ho & Hc & _) Hrun.
  destruct (visit_spec raises args e w Hw)
    as [[Hn _]|(rs & k & w1 & Hrs & Hmp & _
                  & [[-> Hres]|(? & ? & _ & _ & _ & Hres)])];
    [congruence| |congruence].
  rewrite Hrun in Hres. injection Hres as <-.
  rewrite Hxs in Hrs. injection Hrs as <-.
  split; [apply (mp_wf _ _ _ _ _ _ Hmp)|].
  eexists. split; [apply (mp_journal _ _ _ _ _ _ Hmp)|].
  rewrite take_ge by done. unfold with_args.
  apply list_elem_of_fmap. exists c. split; [done|].
  unfold callbacks. apply list_elem_of_omap. exists a. split; [done|].
  unfold cb_of. by rewrite Ho, <- Hc.
Qed.

Lemma trigger_calls events args w w' e a c t :
  wf w → settled w e c → registered w e a c t →
  trigger raises events args w = (Return tt, w') → e ∈ as_list events →
  ∃ js, journal w' = journal w ++ js ∧ (c, args) ∈ js.
Proof.
  intros Hw Hs Hr Hrun (pre & post & Hsplit)%list_elem_of_split.
  rewrite trigger_as_list, Hsplit in Hrun.
  apply trigger_split in Hrun as (w1 & w2 & Hpre & Hvisit & Hpost).
  assert (Hw1 : wf w1).
  { replace w1 with (run (trigger raises (Strs pre) args) w)
      by (unfold run; by rewrite Hpre). by apply wf_trigger. }
  destruct (persists_trigger (Strs pre) args w e c a t Hw Hs Hr) as [_ Hr1].
  destruct (journal_grows (Strs pre) args w Hw) as [j1 Hj1].
  unfold run in Hr1, Hj1. rewrite Hpre in Hr1, Hj1. simpl in Hr1, Hj1.
  destruct (visit_calls args e w1 w2 a c t Hw1 Hr1 Hvisit)
    as (Hw2 & j2 & Hj2 & Hin).
  destruct (journal_grows (Strs post) args w2 Hw2) as [j3 Hj3].
  unfold run in Hj3. rewrite Hpost in Hj3. simpl in Hj3.
  exists (j1 ++ j2 ++ j3). split.
  - by rewrite Hj3, Hj2, Hj1, <- !app_assoc.
  - apply elem_of_app. right. apply elem_of_app. by left.
Qed.

(** What a pass that returns leaves of the sequence. *)
Lemma pass_removal e args w rs w' :
  wf w → listeners w e = Some rs →
  dispatch raises e args w = (Return tt, w') →
  listeners w' e = Some (survivors w rs rs).
Proof.
  intros Hw Hrs Hrun.
  destruct (dispatch_spec raises e args w rs Hw Hrs)
    as (k & w1 & Hmp & _ & [[-> Hres]|(? & ? & _ & _ & _ & Hres)]);
    [|congruence].
  rewrite Hrun in Hres. injection Hres as <-.
  rewrite (mp_here _ _ _ _ _ _ Hmp), take_ge by done. done.
Qed.

End Persist.

(** ** Non-positive limits *)

Lemma commutes_ret {A} (a : A) : commutes (ret a) (ret a).
Proof. intros w Hw. done. Qed.

Lemma commutes_bind {A B} (c c' : Py A) (k k' : A → Py B) :
  commutes c c' → (∀ a, commutes (k a) (k' a)) →
  commutes (bind c k) (bind c' k').
Proof.
  intros Hc Hk w Hw. unfold bind. destruct (Hc w Hw) as [-> Hw1].
  destruct (c w) as [[a|x] w1]; simpl in *; [|done]. by apply Hk.
Qed.

Lemma commutes_for_each {A} (xs : list A) body body' :
  (∀ x, commutes (body x) (body' x)) →
  commutes (for_each xs body) (for_each xs body').
Proof.
  intros Hb. induction xs as [|x xs IH]; simpl.
  - apply commutes_ret.
  - apply commutes_bind; [apply Hb|]. intros _. exact IH.
Qed.

Lemma commutes_for_in fuel l i body body' :
  (∀ x, commutes (body x) (body' x)) →
  commutes (for_in fuel l i body) (for_in fuel l i body').
Proof.
  intros Hb. revert i. induction fuel as [|n IH]; intros i w Hw; simpl.
  - destruct (lsts w !! l) as [xs|]; [|done]. by destruct (xs !! i).
  - destruct (lsts w !! l) as [xs|]; [|done].
    destruct (xs !! i) as [x|]; [|done].
    apply (commutes_bind (body x) (body' x)); [apply Hb| |done].
    intros _. apply IH.
Qed.

(** Computations that leave the records alone. *)
Lemma commutes_frame {A} (c : Py A) :
  (∀ w os, c (with_objs w os) = ((c w).1, with_objs (c w).2 os)) →
  (∀ w, objs (c w).2 = objs w) →
  commutes c c.
Proof.
  intros Hc Ho w Hw. split.
  - unfold relax. rewrite Hc, Ho. done.
  - intros a o. rewrite Ho. apply Hw.
Qed.

Lemma commutes_dict_getitem key :
  commutes (dict_getitem key) (dict_getitem key).
Proof.
  apply commutes_frame; intros w; [intros os|]; unfold dict_getitem; simpl;
    by destruct (_on_off_events w !! key).
Qed.

Lemma commutes_dict_contains key :
  commutes (dict_contains key) (dict_contains key).
Proof. by apply commutes_frame. Qed.

Lemma commutes_dict_setitem key l :
  commutes (dict_setitem key l) (dict_setitem key l).
Proof. by apply commutes_frame. Qed.

Lemma commutes_dict_setdefault key l :
  commutes (dict_setdefault key l) (dict_setdefault key l).
Proof.
  apply commutes_frame; intros w; [intros os|]; unfold dict_setdefault; simpl;
    by destruct (_on_off_events w !! key).
Qed.

Lemma commutes_get_list l : commutes (get_list l) (get_list l).
Proof.
  apply commutes_frame; intros w; [intros os|]; unfold get_list; simpl;
    by destruct (lsts w !! l).
Qed.

Lemma commutes_new_list xs : commutes (new_list xs) (new_list xs).
Proof. by apply commutes_frame. Qed.

Lemma commutes_list_append l x : commutes (list_append l x) (list_append l x).
Proof.
  apply commutes_frame; intros w; [intros os|]; unfold list_append; simpl;
    by destruct (lsts w !! l).
Qed.

Lemma commutes_new_obj o :
  (0 ≤ calls o)%Z → commutes (new_obj o) (new_obj (unlimit o)).
Proof.
  intros Ho w Hw. unfold new_obj, relax. simpl. split.
  - by rewrite length_fmap, fmap_app.
  - intros a o' [?|[_ Hs]]%lookup_app_Some; [by eapply Hw|].
    apply list_lookup_singleton_Some in Hs as [_ <-]. done.
Qed.

Lemma commutes_keep_others cb xs :
  commutes (keep_others cb xs) (keep_others cb xs).
Proof.
  induction xs as [|a xs IH]; intros w Hw; [done|].
  simpl. unfold bind, get_obj. simpl. rewrite list_lookup_fmap.
  destruct (objs w !! a) as [o|]; simpl; [|done].
  destruct (IH w Hw) as [IHeq IHnn]. fold (relax w). rewrite IHeq.
  destruct (keep_others cb xs w) as [[ys|x] w1]; simpl in *; done.
Qed.

Lemma commutes_off events cb : commutes (off events cb) (off events cb).
Proof.
  unfold off. apply commutes_for_each. intros e.
  apply commutes_bind; [apply commutes_dict_getitem|]. intros l.
  apply commutes_bind; [apply commutes_get_list|]. intros xs.
  apply commutes_bind; [apply commutes_keep_others|]. intros ys.
  apply commutes_bind; [apply commutes_new_list|]. intros l'.
  apply commutes_dict_setitem.
Qed.

Lemma commutes_on events cb t :
  commutes (on events cb t) (on events cb (unlimit_times t)).
Proof.
  unfold on. apply commutes_for_each. intros e.
  apply commutes_bind; [apply commutes_new_list|]. intros l.
  apply commutes_bind; [apply commutes_dict_setdefault|]. intros l'.
  apply commutes_bind; [by apply (commutes_new_obj (mkObj cb t 0))|]. intros a.
  apply commutes_list_append.
Qed.

Lemma exhausted_unlimit o :
  (0 ≤ calls o)%Z → calls_eq_times (bump (unlimit o)) = calls_eq_times (bump o).
Proof.
  intros Ho. unfold calls_eq_times. simpl.
  destruct (times o) as [t|]; simpl; [|done].
  destruct (Z.leb_spec t 0); [|done]. symmetry. apply Z.eqb_neq. lia.
Qed.

Section Relax.

Variable raises : list Call → Callback → Args → bool.

Lemma commutes_fire e args a :
  commutes (fire raises e args a) (fire raises e args a).
Proof.
  intros w Hw. destruct (objs w !! a) as [o|] eqn:Ho.
  - assert (Ho' : objs (relax w) !! a = Some (unlimit o)).
    { unfold relax. simpl. by rewrite list_lookup_fmap, Ho. }
    rewrite (fire_eq raises _ _ _ _ _ Ho), (fire_eq raises _ _ _ _ _ Ho').
    simpl. destruct (raises (journal w) (callback o) args); [done|].
    rewrite (exhausted_unlimit o) by (by eapply Hw).
    assert (Hb : bumped (called (relax w) (callback o, args)) a (unlimit o)
                 = relax (bumped (called w (callback o, args)) a o)).
    { unfold bumped, called, relax. simpl. by rewrite list_fmap_insert. }
    assert (Hn : nonneg (bumped (called w (callback o, args)) a o)).
    { intros b ob. unfold bumped, called. simpl. intros Hb'.
      destruct (decide (b = a)) as [->|Hne].
      - rewrite list_lookup_insert_eq in Hb' by (by eapply lookup_lt_Some).
        injection Hb' as <-. simpl. pose proof (Hw a o Ho). lia.
      - rewrite list_lookup_insert_ne in Hb' by done. by eapply Hw. }
    rewrite Hb. destruct (calls_eq_times (bump o)); [|done].
    by apply commutes_off.
  - assert (Ho' : objs (relax w) !! a = None).
    { unfold relax. simpl. by rewrite list_lookup_fmap, Ho. }
    by rewrite !fire_dangling.
Qed.

Lemma commutes_trigger events args :
  commutes (trigger raises events args) (trigger raises events args).
Proof.
  unfold trigger. apply commutes_for_each. intros e. unfold visit.
  apply commutes_bind; [apply commutes_dict_contains|]. intros [|].
  - unfold dispatch. apply commutes_bind; [apply commutes_dict_getitem|].
    intros l. unfold for_list.
    apply commutes_bind; [apply commutes_get_list|]. intros xs.
    apply commutes_for_in. intros a. apply commutes_fire.
  - apply commutes_ret.
Qed.

Lemma commutes_perform op :
  commutes (perform raises op) (perform raises (relax_op op)).
Proof.
  destruct op as [events cb t|events cb|events cb|events args]; simpl.
  - apply commutes_on.
  - apply commutes_off.
  - apply (commutes_on events cb (Some 1%Z)).
  - apply commutes_trigger.
Qed.

End Relax.

(** ** Runs *)

(** [on("hello", f)]; [trigger("hello", "x")] calls [f("x")] once. *)
Example run_hello :
  journal
    (run (trigger quiet (Str "hello") (mkArgs [PyStr "x"] []))
       (run (on (Str "hello") 1 None) init))
  = [(1, mkArgs [PyStr "x"] [])].
Proof. reflexivity. Qed.

(** [on(["a", "b"], g)]; [trigger("a")]; [trigger("b")] calls [g] twice. *)
Example run_two_names :
  journal
    (run (trigger quiet (Str "b") no_args)
       (run (trigger quiet (Str "a") no_args)
          (run (on (Strs ["a"; "b"]) 2 None) init)))
  = [(2, no_args); (2, no_args)].
Proof. reflexivity. Qed.

(** [once("ping", h)]; [trigger("ping")] twice calls [h] once. *)
Example run_once :
  journal
    (run (trigger quiet (Str "ping") no_args)
       (run (trigger quiet (Str "ping") no_args)
          (run (once (Str "ping") 3) init)))
  = [(3, no_args)].
Proof. reflexivity. Qed.

(** In [mixed_e] the first record reaches its limit when it is called, and
    [off] takes the two records of its callback out of the sequence; the
    pass goes on with the list it started on and calls all three. *)
Example run_mixed :
  journal (run (trigger quiet (Str "e") no_args) mixed_e)
  = [(7, no_args); (8, no_args); (7, no_args)]
  ∧ listeners (run (trigger quiet (Str "e") no_args) mixed_e) "e" = Some [1].
Proof. split; reflexivity. Qed.

(** ** Callbacks that do not call the registry

    For callbacks that make no call on the registry while they run,
    [rtrigger] is [trigger], given fuel for the longest sequence. *)

Lemma for_in_ext fuel l i (body body' : nat → Py unit) w :
  (∀ x w, body x w = body' x w) →
  for_in fuel l i body w = for_in fuel l i body' w.
Proof.
  intros Hb. revert i w.
  induction fuel as [|fuel IH]; intros i w; simpl; [done|].
  destruct (lsts w !! l) as [xs|]; [|done].
  destruct (xs !! i) as [x|]; [|done].
  unfold bind. rewrite Hb. destruct (body' x w) as [[[]|x'] w']; [|done].
  apply IH.
Qed.

Lemma for_in_more fuel l i body w :
  (for_in fuel l i body w).1 ≠ Raise Diverged →
  for_in (S fuel) l i body w = for_in fuel l i body w.
Proof.
  revert i w. induction fuel as [|fuel IH]; intros i w.
  - simpl. destruct (lsts w !! l) as [xs|]; [|done].
    destruct (xs !! i) as [x|]; [|done]. simpl. done.
  - intros H. change (for_in (S (S fuel)) l i body w)
      with (match lsts w !! l with
            | None => (Raise Dangling, w)
            | Some xs =>
                match xs !! i with
                | None => (Return tt, w)
                | Some x =>
                    (let* _ := body x in for_in (S fuel) l (S i) body) w
                end
            end).
    change (for_in (S fuel) l i body w)
      with (match lsts w !! l with
            | None => (Raise Dangling, w)
            | Some xs =>
                match xs !! i with
                | None => (Return tt, w)
                | Some x =>
                    (let* _ := body x in for_in fuel l (S i) body) w
                end
            end) in H |- *.
    destruct (lsts w !! l) as [xs|]; [|done].
    destruct (xs !! i) as [x|]; [|done].
    unfold bind in *. destruct (body x w) as [[[]|x'] w']; [|done].
    by apply IH.
Qed.

Lemma for_in_enough n m l i body w :
  n ≤ m → (for_in n l i body w).1 ≠ Raise Diverged →
  for_in m l i body w = for_in n l i body w.
Proof.
  intros Hle H. induction Hle as [|m Hle IH]; [done|].
  rewrite for_in_more; [done|]. by rewrite IH.
Qed.

Lemma rcall_detached raises script fuel cb args w :
  detached script →
  rcall raises script (S fuel) cb args w = call raises cb args w.
Proof.
  intros Hd. simpl. rewrite Hd. simpl. unfold call, called.
  by destruct (raises (journal w) cb args).
Qed.

Lemma fire_with_ext (c c' : Callback → Args → Py unit) e args a w :
  (∀ cb args w, c cb args w = c' cb args w) →
  fire_with c e args a w = fire_with c' e args a w.
Proof.
  intros Hc. unfold fire_with, bind.
  destruct (get_obj a w) as [[o|x] w1]; [|done]. by rewrite Hc.
Qed.

Lemma wf_listeners_length w e rs :
  wf w → listeners w e = Some rs → length rs ≤ length (objs w).
Proof.
  intros Hw Hrs.
  assert (Hsub : rs ⊆+ seq 0 (length (objs w))).
  { apply NoDup_submseteq; [by eapply wf_nodup|].
    intros a Ha. apply elem_of_seq. split; [lia|]. simpl.
    apply lookup_lt_is_Some. eapply wf_listeners_cells; eauto. }
  apply submseteq_length in Hsub. by rewrite length_seq in Hsub.
Qed.

Lemma rdispatch_detached raises script fuel e args w rs :
  detached script → wf w → listeners w e = Some rs → length rs < fuel →
  rdispatch raises script fuel e args w = dispatch raises e args w.
Proof.
  intros Hd Hw Hrs Hfuel.
  destruct fuel as [|n]; [lia|].
  destruct (dispatch_spec raises e args w rs Hw Hrs)
    as (k & w1 & _ & _ & Hres).
  assert (Hnd : (dispatch raises e args w).1 ≠ Raise Diverged).
  { destruct Hres as [[_ ->]|(a & o & _ & _ & _ & ->)]; done. }
  apply listeners_Some in Hrs as (l & He & Hl).
  revert Hnd.
  unfold rdispatch, dispatch_with, dispatch, for_list, bind, dict_getitem,
    get_list.
  rewrite He, Hl. intros Hnd.
  rewrite (for_in_ext _ _ _ _ (fire raises e args)).
  - apply for_in_enough; [lia|done].
  - intros x w'. apply (fire_with_ext _ (call raises)).
    intros cb args' w''. by apply rcall_detached.
Qed.

Lemma mid_pass_length w e args rs k w1 :
  mid_pass w e args rs k w1 → length (objs w1) = length (objs w).
Proof.
  intros Hmp. pose proof (mp_objs _ _ _ _ _ _ Hmp) as Ho.
  assert (length (objs w1) ≤ length (objs w)).
  { apply lookup_ge_None. rewrite Ho.
    by rewrite (proj2 (lookup_ge_None (objs w) (length (objs w)))). }
  assert (length (objs w) ≤ length (objs w1)).
  { apply lookup_ge_None.
    pose proof (Ho (length (objs w1))) as H1.
    rewrite (proj2 (lookup_ge_None (objs w1) (length (objs w1)))) in H1
      by done.
    by destruct (objs w !! length (objs w1)). }
  lia.
Qed.

Lemma trigger_length raises events args w :
  wf w → length (objs (run (trigger raises events args) w)) = length (objs w).
Proof.
  intros Hw.
  apply (trigger_keeps raises (λ w', length (objs w') = length (objs w)));
    [| |done|done].
  - intros w0 e rs k w1 _ H0 _ Hmp.
    by rewrite (mid_pass_length _ _ _ _ _ _ Hmp).
  - intros w0 c H0. exact H0.
Qed.

Lemma rvisit_detached raises script fuel args e w :
  detached script → wf w → length (objs w) < fuel →
  visit_with (rcall raises script fuel) fuel args e w = visit raises args e w.
Proof.
  intros Hd Hw Hfuel. unfold visit_with, visit, bind, dict_contains.
  destruct (bool_decide (is_Some (_on_off_events w !! e))) eqn:Hb; [|done].
  apply bool_decide_eq_true_1 in Hb as [l He].
  destruct (wf_bound _ Hw _ _ He) as [rs Hl].
  assert (Hrs : listeners w e = Some rs).
  { unfold listeners. by rewrite He. }
  apply (rdispatch_detached raises script fuel e args w rs); [done..|].
  pose proof (wf_listeners_length w e rs Hw Hrs). lia.
Qed.

Lemma wf_visit raises args e w :
  wf w →
  wf (run (visit raises args e) w)
  ∧ length (objs (run (visit raises args e) w)) = length (objs w).
Proof.
  intros Hw. unfold run.
  destruct (visit_spec raises args e w Hw)
    as [[_ ->]|(rs & k & w1 & Hrs & Hmp & _
                  & [[_ ->]|(a & o & _ & _ & _ & ->)])]; simpl.
  - done.
  - split; [apply (mp_wf _ _ _ _ _ _ Hmp)|by eapply mid_pass_length].
  - split; [apply wf_called, (mp_wf _ _ _ _ _ _ Hmp)|].
    by eapply mid_pass_length.
Qed.

Lemma rtrigger_detached raises script fuel events args w :
  detached script → wf w → length (objs w) < fuel →
  rtrigger raises script fuel events args w = trigger raises events args w.
Proof.
  intros Hd. unfold rtrigger, trigger_with, trigger.
  generalize (as_list events). clear events. intros es. revert w.
  induction es as [|e es IH]; intros w Hw Hfuel; [done|].
  simpl. unfold bind. rewrite rvisit_detached by done.
  destruct (wf_visit raises args e w Hw) as [Hw1 Hlen]. unfold run in *.
  destruct (visit raises args e w) as [[[]|x] w1]; [|done].
  simpl in *. apply IH; [done|lia].
Qed.

Lemma repeatedly_detached raises script fuel m events args w :
  detached script → wf w → length (objs w) < fuel →
  repeatedly m (rtrigger raises script fuel events args) w
  = repeatedly m (trigger raises events args) w.
Proof.
  intros Hd. revert w. induction m as [|m IH]; intros w Hw Hfuel; [done|].
  simpl. unfold bind. rewrite rtrigger_detached by done.
  pose proof (wf_trigger raises events args w Hw) as Hw1.
  pose proof (trigger_length raises events args w Hw) as Hlen.
  unfold run in *.
  destruct (trigger raises events args w) as [[[]|x] w1]; [|done].
  simpl in *. apply IH; [done|lia].
Qed.

(** * The claims *)

(** C8: [trigger] on event names that are not keys of [_on_off_events] calls
    no callback, raises nothing and returns with the store as it was. *)
Theorem trigger_unknown_event_noop raises events args w :
  (∀ e, e ∈ as_list events → _on_off_events w !! e = None) →
  trigger raises events args w = (Return tt, w).
Proof.
  unfold trigger. induction (as_list events) as [|e es IH]; intros Hun.
  - reflexivity.
  - simpl. unfold bind. rewrite visit_unbound by (apply Hun; left).
    apply IH. intros e' He'. apply Hun. by right.
Qed.

Lemma trigger_unknown_event_noop_witness :
  trigger quiet (Str "never") no_args init = (Return tt, init).
Proof.
  apply trigger_unknown_event_noop. intros e _. apply lookup_empty.
Defined.

Lemma off_list_unknown es cb w e :
  wf w → e ∈ es → _on_off_events w !! e = None →
  ∃ k, k ∈ es ∧ _on_off_events w !! k = None
    ∧ (off (Strs es) cb w).1 = Raise (KeyError k).
Proof.
  revert w. induction es as [|x es IH]; intros w Hw Hin He.
  - by apply elem_of_nil in Hin.
  - destruct (_on_off_events w !! x) as [l|] eqn:Hx.
    + destruct (wf_bound _ Hw _ _ Hx) as [xs Hl].
      assert (Hne : e ≠ x) by (intros ->; congruence).
      apply elem_of_cons in Hin as [?|Hin]; [done|].
      pose proof (off_one_eq x cb w l xs Hx Hl
        (λ a Ha, wf_cells _ Hw _ _ _ Hl Ha)) as Hoff.
      set (w1 := rebind w x (others w cb xs)) in *.
      assert (Hd : ∀ k, _on_off_events w1 !! k = None →
                        _on_off_events w !! k = None).
      { intros k. unfold w1, rebind. simpl.
        destruct (decide (k = x)) as [->|];
          by rewrite ?lookup_insert_eq, ?lookup_insert_ne. }
      destruct (IH w1) as (k & Hk & Hkn & Hres); [|done| |].
      * eapply wf_rebind; eauto using others_sublist.
        unfold listeners. by rewrite Hx.
      * unfold w1, rebind. simpl. by rewrite lookup_insert_ne.
      * exists k. split; [by right|]. split; [by apply Hd|].
        rewrite off_cons. unfold bind. by rewrite Hoff.
    + exists x. split; [left|]. split; [done|]. by rewrite off_unbound.
Qed.

(** C3: [off] on names of which one is not a key of [_on_off_events] raises
    [KeyError] for such a name. *)
Theorem off_unknown_event_raises events cb w e :
  wf w → e ∈ as_list events → _on_off_events w !! e = None →
  ∃ k, k ∈ as_list events ∧ _on_off_events w !! k = None
    ∧ (off events cb w).1 = Raise (KeyError k).
Proof. rewrite off_as_list. apply off_list_unknown. Qed.

Lemma off_unknown_event_raises_witness :
  ∃ k, k ∈ as_list (Strs ["ping"; "pong"])
    ∧ _on_off_events lone_ping !! k = None
    ∧ (off (Strs ["ping"; "pong"]) 7 lone_ping).1 = Raise (KeyError k).
Proof.
  apply (off_unknown_event_raises (Strs ["ping"; "pong"]) 7 lone_ping "pong").
  - apply wf_on, wf_init.
  - simpl. repeat constructor.
  - reflexivity.
Defined.

(** C10: [off] on a list of names whose first unknown name comes after known
    ones raises [KeyError] with the removals for the earlier names done: the
    store is the one that [off] on the earlier names alone returns with. *)
Theorem off_not_atomic pre k post cb w :
  wf w → (∀ e, e ∈ pre → is_Some (_on_off_events w !! e)) →
  _on_off_events w !! k = None →
  ∃ w', off (Strs pre) cb w = (Return tt, w')
    ∧ off (Strs (pre ++ k :: post)) cb w = (Raise (KeyError k), w')
    ∧ ∀ e, e ∈ pre →
        ∃ xs, listeners w e = Some xs
          ∧ listeners w' e = Some (others w cb xs).
Proof.
  intros Hw Hpre Hk.
  destruct (off_spec pre cb w Hw Hpre) as (w' & Hrun & Hw' & _ & _ & Hd & Hv).
  exists w'. split; [done|]. split.
  - unfold off in *. simpl in *. rewrite for_each_app. unfold bind at 1.
    rewrite Hrun. simpl. unfold bind, dict_getitem.
    destruct (_on_off_events w' !! k) as [l|] eqn:Hk'; [|done].
    assert (is_Some (_on_off_events w !! k)) as [? ?] by (apply Hd; eauto).
    congruence.
  - intros e He. destruct (Hpre e He) as [l Hl].
    destruct (wf_bound _ Hw _ _ Hl) as [xs Hxs].
    exists xs. assert (listeners w e = Some xs) as Hls
      by (unfold listeners; by rewrite Hl).
    split; [done|]. rewrite Hv, decide_True, Hls by done. done.
Qed.

Lemma off_not_atomic_witness :
  ∃ w', off (Strs ["ping"]) 7 lone_ping = (Return tt, w')
    ∧ off (Strs (["ping"] ++ "pong" :: ["ping"])) 7 lone_ping
      = (Raise (KeyError "pong"), w')
    ∧ ∀ e, e ∈ ["ping"] →
        ∃ xs, listeners lone_ping e = Some xs
          ∧ listeners w' e = Some (others lone_ping 7 xs).
Proof.
  apply (off_not_atomic ["ping"] "pong" ["ping"] 7 lone_ping).
  - apply wf_on, wf_init.
  - intros e ->%list_elem_of_singleton. vm_compute. eauto.
  - reflexivity.
Defined.







(** C4: after any sequence of [on(e, cb_i)] (no [times]) on a name [e] with
    no earlier registration, one [trigger(e, ...)] calls the callbacks with
    the arguments of [trigger], once for each registration and in the order
    of the registrations; a callback registered twice has two records and is
    called twice.  The calls are supposed to return. *)
Theorem trigger_registration_order raises e cbs args w0 :
  wf w0 → _on_off_events w0 !! e = None →
  all_return raises (journal w0) (with_args args cbs) →
  ∃ w w' rs,
    for_each cbs (λ cb, on (Str e) cb None) w0 = (Return tt, w)
    ∧ trigger raises (Str e) args w = (Return tt, w')
    ∧ journal w' = journal w0 ++ with_args args cbs
    ∧ default [] (listeners w' e) = rs ∧ NoDup rs
    ∧ Forall2 (λ a c, objs w' !! a = Some (mkObj c None 1)) rs cbs.
Proof.
  intros Hw0 He0 Hret.
  destruct (subscribe_all_spec e cbs w0 Hw0) as (w & Hrun & Hw & Hj & Ho & Hl).
  assert (Hn0 : listeners w0 e = None) by (unfold listeners; by rewrite He0).
  rewrite Hn0 in Hl. simpl in Hl.
  destruct (listeners w e) as [rs|] eqn:Hrs; simpl in Hl.
  - subst rs. set (rs := seq (length (objs w0)) (length cbs)) in *.
    pose proof (callbacks_seq w _ _ Ho) as Hcbs. fold rs in Hcbs.
    destruct (pass_returns raises e args w rs Hw Hrs) as (w' & Hpass & Hmp).
    { by rewrite Hcbs, Hj. }
    pose proof (mp_journal _ _ _ _ _ _ Hmp) as Hj'.
    pose proof (mp_objs _ _ _ _ _ _ Hmp) as Ho'.
    pose proof (mp_here _ _ _ _ _ _ Hmp) as Hl'.
    rewrite take_ge in Hj', Ho', Hl' by done.
    exists w, w', rs. split; [done|]. split; [|split; [|split; [|split]]].
    + rewrite trigger_one. unfold bind. rewrite visit_bound, Hpass; [done|].
      apply listeners_Some in Hrs as (l & -> & _). eauto.
    + by rewrite Hj', Hcbs, Hj.
    + rewrite Hl'. simpl. apply survivors_all, exhausted_none.
      intros a o [Hge Hlt]%elem_of_seq Ha.
      destruct (lookup_lt_is_Some_2 cbs (a - length (objs w0))) as [c Hc];
        [lia|].
      pose proof (lookup_registered w _ _ _ _ Ho Hc) as Ha'.
      replace (length (objs w0) + (a - length (objs w0))) with a in Ha' by lia.
      rewrite Ha in Ha'. by injection Ha' as ->.
    + apply NoDup_seq.
    + apply Forall2_same_length_lookup_2; [apply length_seq|].
      intros i a c [-> Hlt]%lookup_seq Hc.
      rewrite Ho', decide_True by (apply elem_of_seq; lia).
      by rewrite (lookup_registered w _ _ _ _ Ho Hc).
  - assert (cbs = []) as ->.
    { apply nil_length_inv. destruct cbs; [done|discriminate Hl]. }
    exists w, w, []. split; [done|]. split; [|split; [|split; [|split]]].
    + rewrite trigger_one. unfold bind. rewrite visit_unbound; [done|].
      by apply wf_listeners_None.
    + simpl. by rewrite app_nil_r.
    + by rewrite Hrs.
    + constructor.
    + constructor.
Qed.

Lemma trigger_registration_order_witness :
  ∃ w w' rs,
    for_each [7; 8; 7] (λ cb, on (Str "e") cb None) init = (Return tt, w)
    ∧ trigger quiet (Str "e") no_args w = (Return tt, w')
    ∧ journal w' = journal init ++ with_args no_args [7; 8; 7]
    ∧ default [] (listeners w' "e") = rs ∧ NoDup rs
    ∧ Forall2 (λ a c, objs w' !! a = Some (mkObj c None 1)) rs [7; 8; 7].
Proof.
  apply (trigger_registration_order quiet "e" [7; 8; 7] no_args init).
  - apply wf_init.
  - reflexivity.
  - vm_compute. repeat split.
Defined.

(** C7: when a callback raises during [trigger], [trigger] raises that
    exception at once: the raising call is the last call made (no record
    that was not yet called is called, on this name or on a later one), and
    the store is the one that the raising call found, with the counts of the
    calls that returned before it; when no callback raises, [trigger]
    returns. *)
Theorem trigger_fault_propagates raises events args w :
  wf w →
  satisfies (trigger raises events args w)
    (λ _ w', completes raises args w w') (aborts raises args w).
Proof.
  intros Hw. unfold trigger.
  cut (∀ es w1, wf w1 → completes raises args w w1 →
         satisfies (for_each es (visit raises args) w1)
           (λ _ w', completes raises args w w') (aborts raises args w)).
  { intros Hcut. apply Hcut; [done|apply completes_refl]. }
  clear Hw. intros es. induction es as [|e es IH]; intros w1 Hw1 Hc1.
  - exact Hc1.
  - simpl. unfold bind.
    destruct (visit_spec raises args e w1 Hw1)
      as [[_ ->]|(rs & k & w2 & Hrs & Hmp & Hret
                    & [[-> ->]|(a & o & Hk & Ho & Hr & ->)])].
    + by apply IH.
    + apply IH; [apply (mp_wf _ _ _ _ _ _ Hmp)|].
      eapply completes_trans; [exact Hc1|].
      by apply (mid_pass_completes raises args w1 e rs (length rs) w2).
    + simpl. exists (callback o), w2. split; [done|].
      split; [|done].
      eapply completes_trans; [exact Hc1|].
      apply lookup_lt_Some in Hk.
      apply (mid_pass_completes raises args w1 e rs k w2);
        [done|done|lia|done|done].
Qed.

Lemma trigger_fault_propagates_witness :
  satisfies (trigger grumpy (Strs ["e"; "f"]) no_args crowd)
    (λ _ w', completes grumpy no_args crowd w')
    (aborts grumpy no_args crowd).
Proof.
  apply (trigger_fault_propagates grumpy (Strs ["e"; "f"]) no_args crowd).
  apply wf_on, wf_on, wf_on, wf_on, wf_init.
Defined.

(** The same run, evaluated: [7] is called and returns, [8] is called and
    raises; the records of [9], on "e" and on "f", are not called, and the
    count of the record of [7] stays at one. *)
Example trigger_fault_run :
  (trigger grumpy (Strs ["e"; "f"]) no_args crowd).1 = Raise (CallbackError 8)
  ∧ journal (run (trigger grumpy (Strs ["e"; "f"]) no_args) crowd)
    = [(7, no_args); (8, no_args)]
  ∧ calls <$> objs (run (trigger grumpy (Strs ["e"; "f"]) no_args) crowd)
    = [1; 0; 0; 0]%Z.
Proof. vm_compute. repeat split. Qed.

(** With callbacks that make no call on the registry: in every store that
    a registry goes through, by [on], [once], [off] and [trigger] from
    [__init__], a record with a positive [times] has at most that many
    [calls], and fewer as long as it is in a sequence: the record whose
    count reaches its [times] has left the sequence before any later
    pass. *)
Lemma reachable_bounded raises w :
  reachable raises w → bounded w.
Proof. intros Hr. by apply (reachable_wf_bounded raises). Qed.

(** C6: [trigger] adds one to [calls] after the callback has returned, and
    compares it with [times] then.  After [once("e", f)], where [f] calls
    [self.trigger("e")] on its first call, [trigger("e")] calls [f]; the
    nested [trigger("e")] finds the record still in the sequence, with
    [calls = 0], calls [f] again and removes the record, with [calls = 1];
    back in the outer pass, the count goes up to [2] and is compared with
    [times = 1].  [f] was called twice, and its record ends with more
    [calls] than [times]. *)
Theorem nested_trigger_overshoots :
  let w' := run (rtrigger quiet echoes 3 (Str "e") no_args) lone_once in
  listeners lone_once "e" = Some [0]
  ∧ objs lone_once = [mkObj 7 (Some 1%Z) 0]
  ∧ (rtrigger quiet echoes 3 (Str "e") no_args lone_once).1 = Return tt
  ∧ journal w' = [(7, no_args); (7, no_args)]
  ∧ objs w' = [mkObj 7 (Some 1%Z) 2]
  ∧ listeners w' "e" = Some []
  ∧ ¬ bounded w'.
Proof.
  repeat (split; [by vm_compute|]).
  intros [Hb _].
  specialize (Hb 0 (mkObj 7 (Some 1%Z) 2) 1%Z).
  assert (2 ≤ 1)%Z; [|lia].
  apply Hb; [by vm_compute|done|lia].
Qed.

(** C1, as the code has it: a record that reaches its limit during
    [trigger] is removed by [off(event, callback)], which removes every
    record of that callback from the sequence of the name, whatever its own
    [times]; the records of other callbacks stay, in their order.  So a
    record with no [times] stays in its sequence through every [trigger],
    and is called by every [trigger] on its name that returns, as long as no
    record of the same callback in that sequence can reach its limit. *)
Theorem unlimited_listener_persists raises e args w rs :
  wf w → listeners w e = Some rs →
  (∀ w', dispatch raises e args w = (Return tt, w') →
     ∃ rs', listeners w' e = Some rs' ∧ sublist rs' rs
       ∧ ∀ a, a ∈ rs' ↔
           a ∈ rs ∧ ∀ b ob, b ∈ rs → objs w !! b = Some ob →
                      calls_eq_times (bump ob) = true →
                      cb_of w a ≠ Some (callback ob))
  ∧ (∀ a o events r w',
       a ∈ rs → objs w !! a = Some o → times o = None →
       settled w e (callback o) →
       trigger raises events args w = (r, w') →
       registered w' e a (callback o) None ∧ settled w' e (callback o)
       ∧ (r = Return tt → e ∈ as_list events →
          ∃ js, journal w' = journal w ++ js ∧ (callback o, args) ∈ js)).
Proof.
  intros Hw Hrs. split.
  - intros w' Hrun. exists (survivors w rs rs).
    split; [by eapply pass_removal|]. split; [apply sublist_filter|].
    intros a. apply survivors_elem.
  - intros a o events r w' Ha Ho Ht Hs Hrun.
    assert (Hr : registered w e a (callback o) None) by by exists rs, o.
    destruct (persists_trigger raises events args w e _ a None Hw Hs Hr)
      as [Hs' Hr'].
    unfold run in Hs', Hr'. rewrite Hrun in Hs', Hr'.
    split; [done|]. split; [done|].
    intros -> He. by eapply trigger_calls.
Qed.

Lemma unlimited_listener_persists_witness :
  registered
    (run (trigger quiet (Str "e") no_args)
       (run (on (Str "e") 8 (Some 1%Z)) (run (on (Str "e") 7 None) init)))
    "e" 0 7 None.
Proof.
  set (w := run (on (Str "e") 8 (Some 1%Z)) (run (on (Str "e") 7 None) init)).
  assert (Hw : wf w) by apply wf_on, wf_on, wf_init.
  assert (Hrs : listeners w "e" = Some [0; 1]) by reflexivity.
  destruct (unlimited_listener_persists quiet "e" no_args w [0; 1] Hw Hrs)
    as [_ Hstay].
  destruct (Hstay 0 (mkObj 7 None 0) (Str "e")
              (trigger quiet (Str "e") no_args w).1
              (trigger quiet (Str "e") no_args w).2) as [Hr _].
  - repeat constructor.
  - reflexivity.
  - reflexivity.
  - intros xs a o [= <-] Ha Ho Hc.
    apply elem_of_cons in Ha as [->|Ha%list_elem_of_singleton].
    + injection Ho as <-. exact I.
    + subst a. injection Ho as <-. discriminate Hc.
  - by destruct (trigger quiet (Str "e") no_args w).
  - exact Hr.
Defined.

(** C1 as stated fails: with [on("e", f)] and [on("e", f, 1)], one
    [trigger("e")] returns, and the record without limit, which nobody
    unsubscribed, is out of the sequence; the next [trigger("e")] calls
    nothing. *)
Lemma unlimited_sibling_removed :
  let w := run (on (Str "e") 7 (Some 1%Z)) (run (on (Str "e") 7 None) init) in
  let w' := run (trigger quiet (Str "e") no_args) w in
  listeners w "e" = Some [0; 1]
  ∧ objs w !! 0 = Some (mkObj 7 None 0)
  ∧ objs w !! 1 = Some (mkObj 7 (Some 1%Z) 0)
  ∧ (trigger quiet (Str "e") no_args w).1 = Return tt
  ∧ listeners w' "e" = Some []
  ∧ (trigger quiet (Str "e") no_args w').1 = Return tt
  ∧ journal (run (trigger quiet (Str "e") no_args) w') = journal w'.
Proof. vm_compute. repeat split. Qed.

(** C9, as the code has it: the count of a record with a non-positive
    [times] never equals it (the comparison comes after the increment), so
    the record is never removed on account of its own count.  It stays in
    its sequence through every [trigger], and is called by every [trigger]
    on its name that returns, as long as no record of the same callback in
    that sequence can reach its limit; and every operation does on the
    store what it does on the store in which the non-positive limits are no
    limits. *)
Theorem nonpositive_times_like_unlimited raises w e a c t :
  wf w → (t ≤ 0)%Z → registered w e a c (Some t) →
  (∃ o, objs w !! a = Some o ∧ dormant o
        ∧ calls_eq_times (bump o) = false)
  ∧ (∀ events args r w',
       settled w e c → trigger raises events args w = (r, w') →
       registered w' e a c (Some t) ∧ settled w' e c
       ∧ (r = Return tt → e ∈ as_list events →
          ∃ js, journal w' = journal w ++ js ∧ (c, args) ∈ js))
  ∧ registered (relax w) e a c None
  ∧ (∀ op, perform raises (relax_op op) (relax w)
           = ((perform raises op w).1, relax (perform raises op w).2)).
Proof.
  intros Hw Ht Hr.
  assert (Hnn : nonneg w) by (intros b ob; apply (wf_calls _ Hw)).
  pose proof Hr as (xs & o & Hxs & Ha & Ho & Hc & Hto).
  assert (Hd : dormant o).
  { unfold dormant. rewrite Hto. pose proof (Hnn a o Ho). lia. }
  split; [|split; [|split]].
  - exists o. auto using dormant_not_exhausted.
  - intros events args r w' Hs Hrun.
    destruct (persists_trigger raises events args w e c a (Some t) Hw Hs Hr)
      as [Hs' Hr'].
    unfold run in Hs', Hr'. rewrite Hrun in Hs', Hr'.
    split; [done|]. split; [done|].
    intros -> He. by eapply trigger_calls.
  - exists xs, (unlimit o). split; [done|]. split; [done|].
    split; [|split; [done|]].
    + unfold relax. simpl. by rewrite list_lookup_fmap, Ho.
    + simpl. rewrite Hto. simpl. by rewrite (proj2 (Z.leb_le t 0)).
  - intros op. by apply (commutes_perform raises op w).
Qed.

Lemma nonpositive_times_like_unlimited_witness :
  registered
    (run (trigger quiet (Str "e") no_args)
       (run (on (Str "e") 8 (Some 1%Z)) (run (on (Str "e") 7 (Some 0%Z)) init)))
    "e" 0 7 (Some 0%Z).
Proof.
  set (w :=
    run (on (Str "e") 8 (Some 1%Z)) (run (on (Str "e") 7 (Some 0%Z)) init)).
  assert (Hw : wf w) by apply wf_on, wf_on, wf_init.
  assert (Hr : registered w "e" 0 7 (Some 0%Z)).
  { exists [0; 1], (mkObj 7 (Some 0%Z) 0). repeat split. repeat constructor. }
  destruct (nonpositive_times_like_unlimited quiet w "e" 0 7 0%Z Hw
              (Z.le_refl 0) Hr) as (_ & Hstay & _).
  destruct (Hstay (Str "e") no_args
              (trigger quiet (Str "e") no_args w).1
              (trigger quiet (Str "e") no_args w).2) as [Hr' _].
  - intros xs a o [= <-] Ha Ho Hc.
    apply elem_of_cons in Ha as [->|Ha%list_elem_of_singleton].
    + injection Ho as <-. by vm_compute.
    + subst a. injection Ho as <-. discriminate Hc.
  - by destruct (trigger quiet (Str "e") no_args w).
  - exact Hr'.
Defined.

(** C9 as stated fails: with [on("e", f, 0)] and [on("e", f, 1)], one
    [trigger("e")] returns, and the record with [times = 0], which nobody
    unsubscribed, is out of the sequence; the next [trigger("e")] calls
    nothing. *)
Lemma nonpositive_sibling_removed :
  let w :=
    run (on (Str "e") 7 (Some 1%Z)) (run (on (Str "e") 7 (Some 0%Z)) init) in
  let w' := run (trigger quiet (Str "e") no_args) w in
  listeners w "e" = Some [0; 1]
  ∧ objs w !! 0 = Some (mkObj 7 (Some 0%Z) 0)
  ∧ objs w !! 1 = Some (mkObj 7 (Some 1%Z) 0)
  ∧ (trigger quiet (Str "e") no_args w).1 = Return tt
  ∧ listeners w' "e" = Some []
  ∧ (trigger quiet (Str "e") no_args w').1 = Return tt
  ∧ journal (run (trigger quiet (Str "e") no_args) w') = journal w'.
Proof. vm_compute. repeat split. Qed.

(** * Further properties *)

(** ** [on] *)

Lemma on_spec es cb t w :
  wf w →
  ∃ w', on (Strs es) cb t w = (Return tt, w') ∧ wf w'
    ∧ journal w' = journal w
    ∧ objs w' = objs w ++ replicate (length es) (mkObj cb t 0)
    ∧ (∀ e, default [] (listeners w' e)
            = default [] (listeners w e)
              ++ copies_for e es (length (objs w)))
    ∧ (∀ e, is_Some (_on_off_events w' !! e)
            ↔ e ∈ es ∨ is_Some (_on_off_events w !! e)).
Proof.
  revert w. induction es as [|x es IH]; intros w Hw.
  - exists w. simpl. rewrite app_nil_r. do 4 (split; [done|]). split.
    + intros e. by rewrite app_nil_r.
    + intros e. rewrite elem_of_nil. tauto.
  - destruct (on_one_spec x cb t w Hw)
      as (w1 & Hon & Hw1 & Ho1 & Hj1 & Hle1 & Hlo1 & Hk1).
    destruct (IH w1 Hw1) as (w' & Hrun & Hw' & Hj & Ho & Hl & Hk).
    exists w'. split; [|split; [done|split; [congruence|split; [|split]]]].
    + rewrite on_cons. unfold bind. by rewrite Hon.
    + rewrite Ho, Ho1, <- app_assoc. done.
    + intros e. rewrite Hl, Ho1, length_app. simpl.
      rewrite Nat.add_1_r, app_assoc. f_equal.
      destruct (decide (x = e)) as [->|Hne].
      * by rewrite Hle1.
      * rewrite Hlo1 by done. by rewrite app_nil_r.
    + intros e. rewrite Hk, Hk1, elem_of_cons. tauto.
Qed.

(** X1: [on] returns and calls nothing.  It allocates one record, with
    [calls = 0], for each name of [events] in turn (a name given twice gets
    two), and puts it at the end of the sequence of that name, which it
    creates if need be; the records and sequences that were there are
    left as they were. *)
Theorem on_registers events cb t w :
  wf w →
  ∃ w', on events cb t w = (Return tt, w') ∧ wf w'
    ∧ journal w' = journal w
    ∧ objs w' = objs w ++ replicate (length (as_list events)) (mkObj cb t 0)
    ∧ (∀ e, default [] (listeners w' e)
            = default [] (listeners w e)
              ++ copies_for e (as_list events) (length (objs w)))
    ∧ (∀ e, is_Some (_on_off_events w' !! e)
            ↔ e ∈ as_list events ∨ is_Some (_on_off_events w !! e)).
Proof. rewrite on_as_list. apply on_spec. Qed.

Lemma on_registers_witness :
  ∃ w', on (Strs ["a"; "b"; "a"]) 5 (Some 2%Z) lone_ping = (Return tt, w')
    ∧ wf w'
    ∧ journal w' = journal lone_ping
    ∧ objs w'
      = objs lone_ping
        ++ replicate (length (as_list (Strs ["a"; "b"; "a"])))
             (mkObj 5 (Some 2%Z) 0)
    ∧ (∀ e, default [] (listeners w' e)
            = default [] (listeners lone_ping e)
              ++ copies_for e (as_list (Strs ["a"; "b"; "a"]))
                   (length (objs lone_ping)))
    ∧ (∀ e, is_Some (_on_off_events w' !! e)
            ↔ e ∈ as_list (Strs ["a"; "b"; "a"])
              ∨ is_Some (_on_off_events lone_ping !! e)).
Proof.
  apply (on_registers (Strs ["a"; "b"; "a"]) 5 (Some 2%Z) lone_ping).
  apply wf_on, wf_init.
Defined.

(** ** [off] *)

(** X2: on names that are all keys, [off] returns and calls nothing; the
    sequence of each name given loses the records of the callback, and
    keeps the others in their order; the other sequences, the records and
    the keys are left as they were. *)
Theorem off_removes_exactly events cb w :
  wf w → (∀ e, e ∈ as_list events → is_Some (_on_off_events w !! e)) →
  ∃ w', off events cb w = (Return tt, w') ∧ wf w'
    ∧ objs w' = objs w ∧ journal w' = journal w
    ∧ (∀ e, is_Some (_on_off_events w' !! e) ↔ is_Some (_on_off_events w !! e))
    ∧ (∀ e, listeners w' e
            = if decide (e ∈ as_list events)
              then others w cb <$> listeners w e
              else listeners w e).
Proof. rewrite off_as_list. apply off_spec. Qed.

Lemma off_removes_exactly_witness :
  ∃ w', off (Str "e") 7 mixed_e = (Return tt, w') ∧ wf w'
    ∧ objs w' = objs mixed_e ∧ journal w' = journal mixed_e
    ∧ (∀ e, is_Some (_on_off_events w' !! e)
            ↔ is_Some (_on_off_events mixed_e !! e))
    ∧ (∀ e, listeners w' e
            = if decide (e ∈ as_list (Str "e"))
              then others mixed_e 7 <$> listeners mixed_e e
              else listeners mixed_e e).
Proof.
  apply (off_removes_exactly (Str "e") 7 mixed_e).
  - apply wf_on, wf_on, wf_on, wf_init.
  - intros e ->%list_elem_of_singleton. vm_compute. eauto.
Defined.

(** X3: [off] with a callback that has no record in the sequences of the
    names given (all of them keys) returns, and leaves every sequence and
    every record as it was: only a name that is not a key makes [off]
    raise. *)
Theorem off_unregistered_noop events cb w :
  wf w → (∀ e, e ∈ as_list events → is_Some (_on_off_events w !! e)) →
  (∀ e xs a, e ∈ as_list events → listeners w e = Some xs → a ∈ xs →
     cb_of w a ≠ Some cb) →
  ∃ w', off events cb w = (Return tt, w')
    ∧ objs w' = objs w ∧ journal w' = journal w
    ∧ ∀ e, listeners w' e = listeners w e.
Proof.
  intros Hw Hb Hno. rewrite off_as_list.
  destruct (off_spec (as_list events) cb w Hw Hb)
    as (w' & Hrun & _ & Ho & Hj & _ & Hl).
  exists w'. do 3 (split; [done|]). intros e. rewrite Hl.
  case_decide as He; [|done].
  destruct (listeners w e) as [xs|] eqn:Hxs; [|done]. simpl. f_equal.
  apply filter_all. intros a Ha. by apply (Hno e xs).
Qed.

Lemma off_unregistered_noop_witness :
  ∃ w', off (Str "e") 9 mixed_e = (Return tt, w')
    ∧ objs w' = objs mixed_e ∧ journal w' = journal mixed_e
    ∧ ∀ e, listeners w' e = listeners mixed_e e.
Proof.
  apply (off_unregistered_noop (Str "e") 9 mixed_e).
  - apply wf_on, wf_on, wf_on, wf_init.
  - intros e ->%list_elem_of_singleton. vm_compute. eauto.
  - intros e xs a ->%list_elem_of_singleton [= <-] Ha.
    repeat (apply elem_of_cons in Ha as [->|Ha]; [by vm_compute|]).
    by apply elem_of_nil in Ha.
Defined.

(** X4: [off] twice is [off] once: the second [off] with the same names and
    callback returns and leaves every sequence and record as the first
    left it. *)
Theorem off_idempotent events cb w :
  wf w → (∀ e, e ∈ as_list events → is_Some (_on_off_events w !! e)) →
  ∃ w1 w2, off events cb w = (Return tt, w1)
    ∧ off events cb w1 = (Return tt, w2)
    ∧ objs w2 = objs w1 ∧ journal w2 = journal w1
    ∧ ∀ e, listeners w2 e = listeners w1 e.
Proof.
  intros Hw Hb. rewrite off_as_list.
  destruct (off_spec (as_list events) cb w Hw Hb)
    as (w1 & Hrun1 & Hw1 & Ho1 & Hj1 & Hk1 & Hl1).
  destruct (off_spec (as_list events) cb w1 Hw1)
    as (w2 & Hrun2 & _ & Ho2 & Hj2 & _ & Hl2).
  { intros e He. apply Hk1, Hb, He. }
  exists w1, w2. do 4 (split; [done|]). intros e. rewrite Hl2.
  case_decide as He; [|done]. rewrite Hl1, decide_True by done.
  rewrite (others_ext w w1) by done.
  destruct (listeners w e) as [xs|]; [|done]. simpl.
  by rewrite others_idemp.
Qed.

Lemma off_idempotent_witness :
  ∃ w1 w2, off (Str "e") 7 mixed_e = (Return tt, w1)
    ∧ off (Str "e") 7 w1 = (Return tt, w2)
    ∧ objs w2 = objs w1 ∧ journal w2 = journal w1
    ∧ ∀ e, listeners w2 e = listeners w1 e.
Proof.
  apply (off_idempotent (Str "e") 7 mixed_e).
  - apply wf_on, wf_on, wf_on, wf_init.
  - intros e ->%list_elem_of_singleton. vm_compute. eauto.
Defined.




(** ** Keys *)

Lemma off_keys es cb w e :
  wf w →
  is_Some (_on_off_events (run (off (Strs es) cb) w) !! e)
  ↔ is_Some (_on_off_events w !! e).
Proof.
  revert w. induction es as [|x es IH]; intros w Hw; [done|].
  unfold run. rewrite off_cons. unfold bind.
  destruct (_on_off_events w !! x) as [l|] eqn:Hx.
  - destruct (wf_bound _ Hw _ _ Hx) as [xs Hl].
    rewrite (off_one_eq x cb w l xs Hx Hl (λ a Ha, wf_cells _ Hw _ _ _ Hl Ha)).
    set (w1 := rebind w x (others w cb xs)).
    assert (Hw1 : wf w1).
    { eapply wf_rebind; eauto using others_sublist.
      unfold listeners. by rewrite Hx. }
    specialize (IH w1 Hw1). unfold run in IH. rewrite IH.
    unfold w1, rebind. simpl. destruct (decide (e = x)) as [->|Hne].
    + rewrite lookup_insert_eq, Hx. split; eauto.
    + by rewrite lookup_insert_ne.
  - change (off (Str x) cb w) with (off (Strs [x]) cb w).
    by rewrite off_unbound.
Qed.

Lemma trigger_keys raises events args w e :
  wf w →
  is_Some (_on_off_events (run (trigger raises events args) w) !! e)
  ↔ is_Some (_on_off_events w !! e).
Proof.
  intros Hw.
  apply (trigger_keeps raises
    (λ w', is_Some (_on_off_events w' !! e) ↔ is_Some (_on_off_events w !! e)));
    [| |done|done].
  - intros w0 e' rs k w1 _ H0 _ Hmp.
    by rewrite (mp_keys _ _ _ _ _ _ Hmp).
  - intros w0 c H0. exact H0.
Qed.

Lemma wf_perform raises op w : wf w → wf (run (perform raises op) w).
Proof.
  intros Hw. destruct op; simpl.
  - by apply wf_on.
  - by apply wf_off.
  - by apply wf_on.
  - by apply wf_trigger.
Qed.

(** X6: no operation removes a key of [_on_off_events]: a name that has
    been subscribed to stays a key through [on], [once], [off] and
    [trigger], whether they return or raise, also when its sequence gets
    empty; so [off] on that name returns afterwards. *)
Theorem keys_never_removed raises op w e :
  wf w → is_Some (_on_off_events w !! e) →
  is_Some (_on_off_events (run (perform raises op) w) !! e)
  ∧ ∀ cb, (off (Str e) cb (run (perform raises op) w)).1 = Return tt.
Proof.
  intros Hw He.
  assert (Hk : is_Some (_on_off_events (run (perform raises op) w) !! e)).
  { destruct op as [events cb t|events cb|events cb|events args]; simpl.
    - unfold run.
      destruct (on_spec (as_list events) cb t w Hw)
        as (w' & Hrun & _ & _ & _ & _ & Hk).
      rewrite on_as_list, Hrun. simpl. apply Hk. by right.
    - rewrite off_as_list. by apply off_keys.
    - unfold run, once.
      destruct (on_spec (as_list events) cb (Some 1%Z) w Hw)
        as (w' & Hrun & _ & _ & _ & _ & Hk).
      rewrite on_as_list, Hrun. simpl. apply Hk. by right.
    - by apply trigger_keys. }
  split; [done|]. intros cb.
  pose proof (wf_perform raises op w Hw) as Hw'.
  destruct Hk as [l Hl]. destruct (wf_bound _ Hw' _ _ Hl) as [xs Hxs].
  by rewrite (off_one_eq e cb _ l xs Hl Hxs
    (λ a Ha, wf_cells _ Hw' _ _ _ Hxs Ha)).
Qed.

Lemma keys_never_removed_witness :
  is_Some
    (_on_off_events
       (run (perform quiet (Trigger (Str "ping") no_args))
          (run (once (Str "ping") 3) init)) !! "ping")
  ∧ ∀ cb,
      (off (Str "ping") cb
         (run (perform quiet (Trigger (Str "ping") no_args))
            (run (once (Str "ping") 3) init))).1
      = Return tt.
Proof.
  apply (keys_never_removed quiet (Trigger (Str "ping") no_args)
           (run (once (Str "ping") 3) init) "ping").
  - apply wf_on, wf_init.
  - vm_compute. eauto.
Defined.

(** ** What [trigger] leaves alone *)

Lemma take_subseteq {A} (xs : list A) k a : a ∈ take k xs → a ∈ xs.
Proof.
  intros (i & Hi & _)%elem_of_take. apply list_elem_of_lookup. eauto.
Qed.

Lemma mid_pass_kept_counts w e args rs k w1 :
  mid_pass w e args rs k w1 → kept_counts w w1.
Proof.
  intros Hmp a o Ho. rewrite (mp_objs _ _ _ _ _ _ Hmp), Ho. simpl.
  destruct (decide _); eexists; (split; [done|]); simpl; repeat split; lia.
Qed.

Lemma isolation raises events args w e :
  wf w → e ∉ as_list events →
  listeners (run (trigger raises events args) w) e = listeners w e
  ∧ ∀ xs a, listeners w e = Some xs → a ∈ xs →
      objs (run (trigger raises events args) w) !! a = objs w !! a.
Proof.
  intros Hw Hne.
  set (P := λ w', listeners w' e = listeners w e
              ∧ ∀ xs a, listeners w e = Some xs → a ∈ xs →
                  objs w' !! a = objs w !! a).
  cut (wf (run (trigger raises events args) w)
       ∧ P (run (trigger raises events args) w)); [by intros [_ ?]|].
  apply (for_each_keeps (λ w', wf w' ∧ P w')); [|by split].
  intros e' w1 He' [Hw1 [Hl1 Ho1]]. unfold run.
  assert (e' ≠ e) as Hdiff by (intros ->; done).
  destruct (visit_spec raises args e' w1 Hw1)
    as [[_ ->]|(rs & k & w2 & Hrs & Hmp & _
                  & [[_ ->]|(a & o & _ & _ & _ & ->)])]; simpl.
  - by split.
  - split; [apply (mp_wf _ _ _ _ _ _ Hmp)|]. split.
    + by rewrite (mp_else _ _ _ _ _ _ Hmp), Hl1.
    + intros xs b Hxs Hb. rewrite (mp_objs _ _ _ _ _ _ Hmp), decide_False.
      * rewrite (Ho1 xs b Hxs Hb). by destruct (objs w !! b).
      * intros Hin%take_subseteq. apply Hdiff.
        apply (wf_own _ Hw1 e' e rs xs b Hrs); [by rewrite Hl1|done|done].
  - split; [apply wf_called, (mp_wf _ _ _ _ _ _ Hmp)|]. split.
    + change (listeners w2 e = listeners w e).
      by rewrite (mp_else _ _ _ _ _ _ Hmp), Hl1.
    + intros xs b Hxs Hb. change (objs w2 !! b = objs w !! b).
      rewrite (mp_objs _ _ _ _ _ _ Hmp), decide_False.
      * rewrite (Ho1 xs b Hxs Hb). by destruct (objs w !! b).
      * intros Hin%take_subseteq. apply Hdiff.
        apply (wf_own _ Hw1 e' e rs xs b Hrs); [by rewrite Hl1|done|done].
Qed.

(** X7: with callbacks that make no call on the registry while they run,
    [trigger] on names other than [e] leaves the sequence of [e] and the
    records in it as they were, whether the callbacks of the other names
    return, raise or reach their limits. *)
Theorem trigger_isolates_names raises script fuel events args w e :
  detached script →
  wf w → length (objs w) < fuel → e ∉ as_list events →
  listeners (run (rtrigger raises script fuel events args) w) e
  = listeners w e
  ∧ ∀ xs a, listeners w e = Some xs → a ∈ xs →
      objs (run (rtrigger raises script fuel events args) w) !! a
      = objs w !! a.
Proof.
  intros Hd Hw Hfuel Hne. unfold run.
  rewrite rtrigger_detached by done. by apply isolation.
Qed.

Lemma trigger_isolates_names_witness :
  listeners (run (rtrigger grumpy aloof 5 (Str "e") no_args) crowd) "f"
  = listeners crowd "f"
  ∧ ∀ xs a, listeners crowd "f" = Some xs → a ∈ xs →
      objs (run (rtrigger grumpy aloof 5 (Str "e") no_args) crowd) !! a
      = objs crowd !! a.
Proof.
  apply (trigger_isolates_names grumpy aloof 5 (Str "e") no_args crowd "f").
  - intros j cb args. reflexivity.
  - apply wf_on, wf_on, wf_on, wf_on, wf_init.
  - vm_compute. lia.
  - simpl. by intros ?%list_elem_of_singleton.
Defined.

(** With callbacks that make no call on the registry, [trigger] only takes
    records out of the sequences. *)
Lemma only_removes raises events args w :
  wf w →
  (∀ e xs', listeners (run (trigger raises events args) w) e = Some xs' →
     ∃ xs, listeners w e = Some xs ∧ sublist xs' xs)
  ∧ kept_counts w (run (trigger raises events args) w).
Proof.
  intros Hw.
  apply (trigger_keeps raises
    (λ w', (∀ e xs', listeners w' e = Some xs' →
              ∃ xs, listeners w e = Some xs ∧ sublist xs' xs)
           ∧ kept_counts w w')); [| |done|].
  - intros w0 e' rs k w1 Hw0 [Hs0 Hk0] Hrs Hmp. split.
    + intros e xs'. destruct (decide (e = e')) as [->|Hne].
      * rewrite (mp_here _ _ _ _ _ _ Hmp). intros [= <-].
        destruct (Hs0 e' rs Hrs) as (xs & Hxs & Hsub).
        exists xs. split; [done|]. etrans; [apply sublist_filter|done].
      * rewrite (mp_else _ _ _ _ _ _ Hmp) by done. apply Hs0.
    + eapply kept_counts_trans; [done|]. by eapply mid_pass_kept_counts.
  - intros w0 c H0. exact H0.
  - split; [|apply kept_counts_refl]. intros e xs' Hxs'. by exists xs'.
Qed.

(** X8: with callbacks that make no call on the registry while they run,
    [trigger] never adds a record to a sequence and never changes the order
    of a sequence: whether it returns or raises, every sequence is what is
    left of the sequence it was when some records are taken out; and every
    record keeps its callback and its [times], with a count that has not
    gone down. *)
Theorem trigger_only_removes raises script fuel events args w :
  detached script →
  wf w → length (objs w) < fuel →
  (∀ e xs',
     listeners (run (rtrigger raises script fuel events args) w) e
     = Some xs' →
     ∃ xs, listeners w e = Some xs ∧ sublist xs' xs)
  ∧ kept_counts w (run (rtrigger raises script fuel events args) w).
Proof.
  intros Hd Hw Hfuel. unfold run.
  rewrite rtrigger_detached by done. by apply only_removes.
Qed.

Lemma trigger_only_removes_witness :
  (∀ e xs',
     listeners (run (rtrigger quiet aloof 4 (Str "e") no_args) mixed_e) e
     = Some xs' →
     ∃ xs, listeners mixed_e e = Some xs ∧ sublist xs' xs)
  ∧ kept_counts mixed_e
      (run (rtrigger quiet aloof 4 (Str "e") no_args) mixed_e).
Proof.
  apply (trigger_only_removes quiet aloof 4 (Str "e") no_args mixed_e).
  - intros j cb args. reflexivity.
  - apply wf_on, wf_on, wf_on, wf_init.
  - vm_compute. lia.
Defined.

(** ** Limits *)

Section Countdown.

Variable raises : list Call → Callback → Args → bool.

Lemma empty_step e args w :
  wf w → listeners w e = Some [] →
  ∃ w', trigger raises (Str e) args w = (Return tt, w') ∧ wf w'
    ∧ journal w' = journal w ∧ listeners w' e = Some [].
Proof.
  intros Hw Hrs.
  destruct (pass_returns raises e args w [] Hw Hrs) as (w' & Hrun & Hmp);
    [done|].
  exists w'. split; [|split; [apply (mp_wf _ _ _ _ _ _ Hmp)|split]].
  - rewrite trigger_one. unfold bind. rewrite visit_bound, Hrun; [done|].
    apply listeners_Some in Hrs as (l & -> & _). eauto.
  - rewrite (mp_journal _ _ _ _ _ _ Hmp). simpl. by rewrite app_nil_r.
  - by rewrite (mp_here _ _ _ _ _ _ Hmp).
Qed.

Lemma empty_steps e args m w :
  wf w → listeners w e = Some [] →
  ∃ w', repeatedly m (trigger raises (Str e) args) w = (Return tt, w')
    ∧ journal w' = journal w ∧ listeners w' e = Some [].
Proof.
  revert w. induction m as [|m IH]; intros w Hw Hrs; [by exists w|].
  destruct (empty_step e args w Hw Hrs) as (w1 & Hrun & Hw1 & Hj1 & Hl1).
  destruct (IH w1 Hw1 Hl1) as (w' & Hrun' & Hj' & Hl').
  exists w'. split; [|split; [congruence|done]].
  simpl. unfold bind. by rewrite Hrun.
Qed.

(** A record that is alone in its sequence, [r] calls short of its
    limit. *)
Lemma countdown e cb args a n m r w c :
  (∀ j, raises j cb args = false) →
  wf w → listeners w e = Some [a] →
  objs w !! a = Some (mkObj cb (Some n) c) →
  n = (c + Z.of_nat r)%Z → 0 < r →
  ∃ w', repeatedly m (trigger raises (Str e) args) w = (Return tt, w')
    ∧ journal w' = journal w ++ replicate (min m r) (cb, args)
    ∧ listeners w' e = Some (if decide (m < r) then [a] else []).
Proof.
  intros Hq. revert r w c.
  induction m as [|m IH]; intros r w c Hw Hrs Ho Hn Hr.
  - exists w. simpl. rewrite app_nil_r, decide_True by done. done.
  - destruct (lone_listener_step raises e args w a _ Hw Hrs Ho (Hq _))
      as (w1 & Hrun & Hw1 & Ho1 & Hj1 & Hl1).
    unfold calls_eq_times in Hl1. simpl in Ho1, Hj1, Hl1.
    destruct (decide (r = 1)) as [->|Hr1].
    + rewrite (proj2 (Z.eqb_eq _ _)) in Hl1 by lia.
      destruct (empty_steps e args m w1 Hw1 Hl1) as (w' & Hrun' & Hj' & Hl').
      exists w'. split; [|split].
      * simpl. unfold bind. by rewrite Hrun.
      * rewrite Hj', Hj1. by replace (min (S m) 1) with 1 by lia.
      * by rewrite decide_False by lia.
    + rewrite (proj2 (Z.eqb_neq _ _)) in Hl1 by lia.
      destruct (IH (r - 1) w1 (c + 1)%Z Hw1 Hl1 Ho1)
        as (w' & Hrun' & Hj' & Hl'); [lia|lia|].
      exists w'. split; [|split].
      * simpl. unfold bind. by rewrite Hrun.
      * rewrite Hj', Hj1, <- app_assoc.
        by replace (min (S m) r) with (S (min m (r - 1))) by lia.
      * rewrite Hl'. destruct (decide (m < r - 1)), (decide (S m < r));
          (done || lia).
Qed.

Lemma limited_alone e cb args n m w0 :
  (∀ j, raises j cb args = false) →
  wf w0 → default [] (listeners w0 e) = [] → (0 < n)%Z →
  ∃ w1 w2, on (Str e) cb (Some n) w0 = (Return tt, w1)
    ∧ repeatedly m (trigger raises (Str e) args) w1 = (Return tt, w2)
    ∧ journal w2 = journal w0 ++ replicate (min m (Z.to_nat n)) (cb, args)
    ∧ listeners w2 e
      = Some (if decide (m < Z.to_nat n) then [length (objs w0)] else []).
Proof.
  intros Hq Hw0 He Hn.
  destruct (on_one_spec e cb (Some n) w0 Hw0)
    as (w1 & Hon & Hw1 & Ho1 & Hj1 & Hl1 & _).
  rewrite He in Hl1. simpl in Hl1.
  assert (Ha : objs w1 !! length (objs w0) = Some (mkObj cb (Some n) 0)).
  { rewrite Ho1, lookup_app_r, Nat.sub_diag by lia. done. }
  destruct (countdown e cb args _ n m (Z.to_nat n) w1 0 Hq Hw1 Hl1 Ha)
    as (w2 & Hrun & Hj2 & Hl2); [lia|lia|].
  exists w1, w2. split; [done|]. split; [done|]. split; [congruence|done].
Qed.

End Countdown.

(** X9: after [on(e, cb, n)] with [n] positive, on a name with no record in
    its sequence (a new name, or one whose records are all gone), and for a
    callback [cb] that returns and makes no call on the registry while it
    runs, [m] calls of [trigger(e)] call [cb] [min m n] times in all: once
    in each of the first [n], after which the record is out of the
    sequence. *)
Theorem limit_counts_down raises script fuel e cb args n m w0 :
  detached script →
  (∀ j, raises j cb args = false) →
  wf w0 → default [] (listeners w0 e) = [] → (0 < n)%Z →
  S (length (objs w0)) < fuel →
  ∃ w1 w2, on (Str e) cb (Some n) w0 = (Return tt, w1)
    ∧ repeatedly m (rtrigger raises script fuel (Str e) args) w1
      = (Return tt, w2)
    ∧ journal w2 = journal w0 ++ replicate (min m (Z.to_nat n)) (cb, args)
    ∧ listeners w2 e
      = Some (if decide (m < Z.to_nat n) then [length (objs w0)] else []).
Proof.
  intros Hd Hq Hw0 He Hn Hfuel.
  destruct (limited_alone raises e cb args n m w0 Hq Hw0 He Hn)
    as (w1 & w2 & Hon & Hrun & Hj & Hl).
  destruct (on_one_spec e cb (Some n) w0 Hw0) as (w1' & Hon' & Hw1 & Ho1 & _).
  assert (w1' = w1) as -> by congruence.
  exists w1, w2. split; [done|]. split; [|done].
  rewrite repeatedly_detached; [done..|].
  rewrite Ho1, length_app. simpl. lia.
Qed.

Lemma limit_counts_down_witness :
  ∃ w1 w2, on (Str "e") 7 (Some 2%Z) lone_ping = (Return tt, w1)
    ∧ repeatedly 5 (rtrigger quiet aloof 3 (Str "e") no_args) w1
      = (Return tt, w2)
    ∧ journal w2
      = journal lone_ping ++ replicate (min 5 (Z.to_nat 2)) (7, no_args)
    ∧ listeners w2 "e"
      = Some (if decide (5 < Z.to_nat 2) then [length (objs lone_ping)]
              else []).
Proof.
  apply (limit_counts_down quiet aloof 3 "e" 7 no_args 2 5 lone_ping).
  - intros j cb args. reflexivity.
  - intros j. reflexivity.
  - apply wf_on, wf_init.
  - reflexivity.
  - lia.
  - vm_compute. lia.
Defined.

(** X10: after [once(e, cb)] on a name with no record in its sequence, and
    for a callback [cb] that returns and makes no call on the registry
    while it runs, any number of calls of [trigger(e)], one at least, calls
    [cb] once in all, and leaves [e] with an empty sequence. *)
Theorem once_fires_once raises script fuel e cb args m w0 :
  detached script →
  (∀ j, raises j cb args = false) →
  wf w0 → default [] (listeners w0 e) = [] →
  S (length (objs w0)) < fuel →
  ∃ w1 w2, once (Str e) cb w0 = (Return tt, w1)
    ∧ repeatedly (S m) (rtrigger raises script fuel (Str e) args) w1
      = (Return tt, w2)
    ∧ journal w2 = journal w0 ++ [(cb, args)]
    ∧ listeners w2 e = Some [].
Proof.
  intros Hd Hq Hw0 He Hfuel.
  destruct (limited_alone raises e cb args 1 (S m) w0 Hq Hw0 He)
    as (w1 & w2 & Hon & Hrun & Hj & Hl); [lia|].
  destruct (on_one_spec e cb (Some 1%Z) w0 Hw0)
    as (w1' & Hon' & Hw1 & Ho1 & _).
  assert (w1' = w1) as -> by congruence.
  exists w1, w2. split; [done|]. split; [|split].
  - rewrite repeatedly_detached; [done..|].
    rewrite Ho1, length_app. simpl. lia.
  - rewrite Hj. by replace (min (S m) (Z.to_nat 1)) with 1 by lia.
  - rewrite Hl. by rewrite decide_False by lia.
Qed.

Lemma once_fires_once_witness :
  ∃ w1 w2, once (Str "e") 7 lone_ping = (Return tt, w1)
    ∧ repeatedly (S 2) (rtrigger quiet aloof 3 (Str "e") no_args) w1
      = (Return tt, w2)
    ∧ journal w2 = journal lone_ping ++ [(7, no_args)]
    ∧ listeners w2 "e" = Some [].
Proof.
  apply (once_fires_once quiet aloof 3 "e" 7 no_args 2 lone_ping).
  - intros j cb args. reflexivity.
  - intros j. reflexivity.
  - apply wf_on, wf_init.
  - reflexivity.
  - vm_compute. lia.
Defined.

(** ** Invariants of the registry *)

(** X11: in every store that a registry goes through, no address dangles,
    every name has a list object of its own, no record is twice in a
    sequence nor in the sequences of two names ([on] stores a copy for
    each name), and no count is negative. *)
Theorem reachable_well_formed raises w : reachable raises w → wf w.
Proof. intros Hr. by apply (reachable_wf_bounded raises). Qed.

Lemma reachable_well_formed_witness :
  wf (run (perform grumpy (Trigger (Strs ["a"; "b"]) no_args))
        (run (perform grumpy (On (Strs ["a"; "b"]) 8 (Some 1%Z))) init)).
Proof.
  apply (reachable_well_formed grumpy).
  apply reach_step, reach_step, reach_init.
Defined.

Lemma keep_others_state cb xs w : (keep_others cb xs w).2 = w.
Proof.
  induction xs as [|a xs IH]; [done|].
  simpl. unfold bind, get_obj. destruct (objs w !! a); [|done].
  destruct (keep_others cb xs w) as [[ys|x] w1]; simpl in *; done.
Qed.

Lemma off_frame events cb w :
  objs (run (off events cb) w) = objs w
  ∧ journal (run (off events cb) w) = journal w.
Proof.
  apply (for_each_keeps (λ w', objs w' = objs w ∧ journal w' = journal w));
    [|done].
  intros e w1 _ [Ho Hj]. unfold run, bind, dict_getitem, get_list.
  destruct (_on_off_events w1 !! e) as [l|]; [|done].
  destruct (lsts w1 !! l) as [xs|]; [|done].
  pose proof (keep_others_state cb xs w1) as Hk.
  destruct (keep_others cb xs w1) as [[ys|x] w2]; simpl in *; by subst w2.
Qed.

Lemma tally_app raises j js1 js2 :
  tally raises j (js1 ++ js2)
  = tally raises j js1 + tally raises (j ++ js1) js2.
Proof.
  revert j. induction js1 as [|c js1 IH]; intros j; simpl.
  - by rewrite app_nil_r.
  - rewrite IH, <- app_assoc. simpl. lia.
Qed.

Lemma tally_all_return raises j js :
  all_return raises j js → tally raises j js = length js.
Proof.
  revert j. induction js as [|c js IH]; intros j; simpl; [done|].
  intros [-> Hret]. by rewrite IH.
Qed.

Lemma total_calls_fresh os k cb t :
  foldr (λ o s, (calls o + s)%Z) 0%Z (os ++ replicate k (mkObj cb t 0))
  = foldr (λ o s, (calls o + s)%Z) 0%Z os.
Proof.
  rewrite foldr_app. f_equal.
  induction k as [|k IH]; simpl; [done|]. by rewrite IH.
Qed.

Lemma trigger_outcome raises events args w :
  wf w →
  satisfies (trigger raises events args w)
    (λ _ w', completes raises args w w') (aborts raises args w).
Proof.
  intros Hw. unfold trigger.
  cut (∀ es w1, wf w1 → completes raises args w w1 →
         satisfies (for_each es (visit raises args) w1)
           (λ _ w', completes raises args w w') (aborts raises args w)).
  { intros Hcut. apply Hcut; [done|apply completes_refl]. }
  clear Hw. intros es. induction es as [|e es IH]; intros w1 Hw1 Hc1.
  - exact Hc1.
  - simpl. unfold bind.
    destruct (visit_spec raises args e w1 Hw1)
      as [[_ ->]|(rs & k & w2 & Hrs & Hmp & Hret
                    & [[-> ->]|(a & o & Hk & Ho & Hr & ->)])].
    + by apply IH.
    + apply IH; [apply (mp_wf _ _ _ _ _ _ Hmp)|].
      eapply completes_trans; [exact Hc1|].
      by apply (mid_pass_completes raises args w1 e rs (length rs) w2).
    + simpl. exists (callback o), w2. split; [done|].
      split; [|done].
      eapply completes_trans; [exact Hc1|].
      apply lookup_lt_Some in Hk.
      apply (mid_pass_completes raises args w1 e rs k w2);
        [done|done|lia|done|done].
Qed.

(** X12: the counters count the calls that returned: in every store that a
    registry goes through, the sum of the [calls] of all records, removed
    ones included, is the number of calls made so far that returned; a
    call that raises is not counted. *)
Theorem counters_count_returns raises w :
  reachable raises w →
  total_calls w = Z.of_nat (tally raises [] (journal w)).
Proof.
  induction 1 as [|w op Hr IH]; [done|].
  pose proof (proj1 (reachable_wf_bounded raises w Hr)) as Hw.
  assert (Hon : ∀ events cb t,
    total_calls (run (on events cb t) w)
    = Z.of_nat (tally raises [] (journal (run (on events cb t) w)))).
  { intros events cb t. unfold run. rewrite on_as_list.
    destruct (on_spec (as_list events) cb t w Hw)
      as (w' & -> & _ & Hj & Ho & _).
    simpl. rewrite Hj, <- IH. unfold total_calls.
    rewrite Ho. apply total_calls_fresh. }
  destruct op as [events cb t|events cb|events cb|events args]; simpl.
  - apply Hon.
  - destruct (off_frame events cb w) as [Ho Hj].
    rewrite Hj, <- IH. unfold total_calls. by rewrite Ho.
  - apply Hon.
  - pose proof (trigger_outcome raises events args w Hw) as Hout.
    unfold run. destruct (trigger raises events args w) as [[[]|x] w'];
      simpl in *.
    + destruct Hout as (js & Hj & _ & Hret & Ht & _).
      rewrite Ht, Hj, tally_app, IH. simpl.
      rewrite (tally_all_return _ _ _ Hret). lia.
    + destruct Hout as (c & w1 & _ & (js & Hj & _ & Hret & Ht & _) & Hc & ->).
      change (total_calls (called w1 (c, args))) with (total_calls w1).
      simpl. rewrite tally_app. simpl. rewrite Hc.
      rewrite Ht, Hj, tally_app, IH. simpl.
      rewrite (tally_all_return _ _ _ Hret). lia.
Qed.

Lemma counters_count_returns_witness :
  total_calls
    (run (perform grumpy (Trigger (Str "e") no_args))
       (run (perform grumpy (On (Str "e") 8 None))
          (run (perform grumpy (On (Str "e") 7 None)) init)))
  = Z.of_nat
      (tally grumpy []
         (journal
            (run (perform grumpy (Trigger (Str "e") no_args))
               (run (perform grumpy (On (Str "e") 8 None))
                  (run (perform grumpy (On (Str "e") 7 None)) init))))).
Proof.
  apply (counters_count_returns grumpy).
  apply reach_step, reach_step, reach_step, reach_init.
Defined.



(** ** Several names, several registrations *)










Section PerName.

Variable raises : list Call → Callback → Args → bool.



End PerName.




